(** * face-compare: the InsightFace server's store, matcher and batch endpoint

    A shallow embedding of [insightface-server/face_recognition.py] and of the
    batch endpoint of [insightface-server/main.py].

    - Python [float] values are IEEE-754 binary64 numbers, modelled by the
      Standard Library's [spec_float] with its executable operations
      ([SFmul], [SFdiv], [SFsqrt], [SFcompare]); NaN and the infinities are
      values, as they are for numpy, which does not raise on a division by
      zero.
    - The similarity that [cosine_similarity] returns is a numpy scalar of
      the embeddings' dtype, unless the clamp returned one of its own
      literals. The comparison with the threshold and the product with
      [1.2] are written for either dtype: numpy 2 converts the Python float
      to [float32] when the scalar is a [float32] and rounds the product to
      [float32]. A [float32] is written as the binary64 number of the same
      value. The arithmetic on the entries of the embeddings is written in
      binary64 for either dtype: what is proved of the similarity holds of
      every number the clamp can return, and the sample embeddings are
      chosen so that no operation on them rounds.
    - Python's builtin [min] and [max] are modelled as CPython runs them: the
      first item is kept and replaced only when a later one compares strictly
      below (above) it.
    - The two dictionaries [user_embeddings] and [user_faces] are finite maps
      keyed by the user id; the file [user_data.pkl] is part of the state.
    - The image codec, the face model and the array slicing are the external
      collaborators: they are the fields of the class [Backend]. The part of
      [base64_to_image] that the repository writes itself, the stripping of
      a data-URI prefix and the conversion of every error into a
      [ValueError], is [base64_to_image_body]. *)

From Stdlib Require Import ZArith List Bool Ascii.
From Stdlib Require Import Floats.SpecFloat.
From stdpp Require Import gmap strings list fin_maps.
Import ListNotations.

(* ===================================================================== *)
(** ** Binary64 numbers *)
(* ===================================================================== *)

Module F64.

Definition prec : Z := 53.
Definition emax : Z := 1024.

Definition mul : spec_float → spec_float → spec_float := SFmul prec emax.
Definition add : spec_float → spec_float → spec_float := SFadd prec emax.
Definition sub : spec_float → spec_float → spec_float := SFsub prec emax.
Definition div : spec_float → spec_float → spec_float := SFdiv prec emax.
Definition sqrt : spec_float → spec_float := SFsqrt prec emax.

(** [x < y], [x <= y] and [x >= y] of two Python floats; each is [False]
    as soon as one side is NaN. *)
Definition lt (x y : spec_float) : bool := SFltb x y.
Definition le (x y : spec_float) : bool := SFleb x y.
Definition ge (x y : spec_float) : bool := SFleb y x.

Definition is_nan (x : spec_float) : bool :=
  match x with S754_nan => true | _ => false end.

(** The float nearest to an integer. *)
Definition of_Z (z : Z) : spec_float := binary_normalize prec emax z 0 false.

(** The literals of the source. *)
Definition zero : spec_float := S754_zero false.                      (* 0.0 *)
Definition one : spec_float := S754_finite false 4503599627370496 (-52). (* 1.0 *)
Definition c1_2 : spec_float := S754_finite false 5404319552844595 (-52). (* 1.2 *)
Definition c0_6 : spec_float := S754_finite false 5404319552844595 (-53). (* 0.6 *)
Definition c0_7 : spec_float := S754_finite false 6305039478318694 (-53). (* 0.7 *)

End F64.

Abbreviation float := spec_float (only parsing).

(* ===================================================================== *)
(** ** Python builtins and the numpy calls of the matcher *)
(* ===================================================================== *)

(** The loop of CPython's [min]/[max] once the first item is in hand: [better
    val best] is the rich comparison [val < best] for [min] and [val > best]
    for [max], on the keys. *)
Fixpoint py_extremum_loop {A K : Type} (better : K → K → bool) (key : A → K)
    (best : A) (items : list A) : A :=
  match items with
  | [] => best
  | item :: rest =>
      py_extremum_loop better key
        (if better (key item) (key best) then item else best) rest
  end.

(** [max(items, key=key)]; [None] is the [ValueError] of an empty sequence. *)
Definition py_max_by {A : Type} (key : A → float) (items : list A) : option A :=
  match items with
  | [] => None
  | first :: rest => Some (py_extremum_loop (λ v best, F64.lt best v) key first rest)
  end.

(** [min(a, b)] and [max(a, b)] on floats. *)
Definition py_min (a b : float) : float :=
  py_extremum_loop (λ v best, F64.lt v best) id a [b].
Definition py_max (a b : float) : float :=
  py_extremum_loop (λ v best, F64.lt best v) id a [b].

(** An embedding or any other one-dimensional numpy array of floats. *)
Abbreviation vector := (list spec_float) (only parsing).

(** A call that may raise: [Raise msg] carries [str(e)]. *)
Inductive py (A : Type) : Type :=
  | Return (a : A)
  | Raise (msg : string).
Arguments Return {A} a.
Arguments Raise {A} msg.

(** The sum of the pairwise products, accumulated from the left. *)
Fixpoint dot_acc (acc : float) (v w : vector) : float :=
  match v, w with
  | x :: v', y :: w' => dot_acc (F64.add acc (F64.mul x y)) v' w'
  | _, _ => acc
  end.

(** [np.dot(v, w)] on two one-dimensional arrays: a [ValueError] when the
    shapes are not aligned. *)
Definition np_dot (v w : vector) : py float :=
  if decide (length v = length w) then Return (dot_acc F64.zero v w)
  else Raise "shapes not aligned".

(** [np.linalg.norm(v)]: the square root of [v.dot(v)]. *)
Definition np_linalg_norm (v : vector) : float :=
  F64.sqrt (dot_acc F64.zero v v).

(** [v / s]: numpy divides entry by entry and only warns on a zero divisor. *)
Definition np_divide (v : vector) (s : float) : vector :=
  map (λ x, F64.div x s) v.

(** [InsightFaceRecognition.cosine_similarity]. *)
Definition cosine_similarity (vec1 vec2 : vector) : float :=
  let vec1_norm := np_divide vec1 (np_linalg_norm vec1) in
  let vec2_norm := np_divide vec2 (np_linalg_norm vec2) in
  match np_dot vec1_norm vec2_norm with
  | Return similarity => py_max F64.zero (py_min F64.one similarity)
  | Raise _ => F64.zero
  end.

(* ===================================================================== *)
(** ** numpy scalars that meet a Python float *)
(* ===================================================================== *)

(** The dtype of a floating-point numpy scalar. *)
Inductive Dtype : Type := Float32 | Float64.

(** Binary32 numbers. A [float32] is written as the binary64 number of the
    same value, so that all numbers are compared in one form. *)
Module F32.

Definition prec : Z := 24.
Definition emax : Z := 128.

(** The mantissa of a positive binary64 number with exponent [e]: 53 bits,
    or fewer at the least exponent. A [spec_float] that is no binary64
    number is read as the nearest one in the order of [SFcompare]. *)
Definition clamp_mantissa (m e : Z) : Z :=
  if (e =? -1074)%Z then Z.min m (2 ^ 53 - 1)
  else Z.max (2 ^ 52) (Z.min m (2 ^ 53 - 1)).

(** A positive number in units of [2 ^ -1074], of which every finite
    binary64 number is a multiple. *)
Definition scaled (m : positive) (e : Z) : Z :=
  if (e <? -1074)%Z then 0%Z
  else if (971 <? e)%Z then (2 ^ 2100)%Z
  else (clamp_mantissa (Z.pos m) e * 2 ^ (e + 1074))%Z.

(** [a / P] rounded to the nearest integer, a tie to the even one. *)
Definition rne (P a : Z) : Z :=
  let q := (a / P)%Z in
  let r := (a mod P)%Z in
  match (2 * r ?= P)%Z with
  | Lt => q
  | Gt => (q + 1)%Z
  | Eq => if Z.even q then q else (q + 1)%Z
  end.

(** Rounding to binary32 on the scaled numbers: 24 significant bits are
    kept, and nothing below [2 ^ -149], which is [2 ^ 925] units. *)
Definition round_scaled (V : Z) : Z :=
  let k := Z.max (Z.log2 V - 23) 925 in
  (rne (2 ^ k) V * 2 ^ k)%Z.

(** Back from the scaled numbers to binary64 form; [2 ^ 128], which is
    [2 ^ 1202] units, and all above it overflow to infinity. *)
Definition of_scaled (R : Z) : float :=
  if (R =? 0)%Z then S754_zero false
  else if (2 ^ 1202 <=? R)%Z then S754_infinity false
  else
    let d := Z.log2 R in
    if (52 <=? d)%Z then
      S754_finite false (Z.to_pos (R / 2 ^ (d - 52))) (d - 52 - 1074)
    else S754_finite false (Z.to_pos R) (-1074).

(** [np.float32(x)] of a Python float [x]: the nearest binary32 number, a
    tie to the one with an even mantissa, zero below half of [2 ^ -149]
    and infinity from halfway between the greatest binary32 number and
    [2 ^ 128] on. It is written on the scaled integers so that it keeps
    the order of every two [spec_float]s. *)
Definition of_python (x : float) : float :=
  match x with
  | S754_finite s m e =>
      let r := of_scaled (round_scaled (scaled m e)) in
      if s then SFopp r else r
  | _ => x
  end.

(** [float(x)] of a binary32 number in the form of the Standard Library:
    the same value in binary64 form. *)
Definition to_python (x : float) : float :=
  match x with
  | S754_finite s m e => binary_round F64.prec F64.emax s m e
  | _ => x
  end.

(** [np.float32(x)] once more, through the rounding of the Standard
    Library: the two are the same on every binary64 number (theorem
    [of_python_is_rounding] below). *)
Definition of_python_ref (x : float) : float :=
  match x with
  | S754_finite s m e => to_python (binary_round prec emax s m e)
  | _ => x
  end.

(** The product of two binary32 numbers: the exact product rounded to
    binary32 by the Standard Library, in binary64 form. *)
Definition mul (x y : float) : float := to_python (SFmul prec emax x y).

End F32.

(** What numpy makes of the Python float that meets a scalar of dtype [d]:
    it is converted to that dtype. *)
Definition np_weak (d : Dtype) (x : float) : float :=
  match d with
  | Float32 => F32.of_python x
  | Float64 => x
  end.

(** [scalar >= x] and [scalar * x] for a scalar of dtype [d] and a Python
    float [x]. *)
Definition np_ge (d : Dtype) (scalar x : float) : bool :=
  F64.ge scalar (np_weak d x).

Definition np_mul (d : Dtype) (scalar x : float) : float :=
  match d with
  | Float32 => F32.mul scalar (F32.of_python x)
  | Float64 => F64.mul scalar x
  end.

(** The shape of a number that is not negative. *)
Definition nonneg_shape (x : float) : Prop :=
  match x with
  | S754_zero false | S754_infinity false | S754_finite false _ _ => True
  | _ => False
  end.

(* ===================================================================== *)
(** ** The face extractor *)
(* ===================================================================== *)

(** The bounding box [(x1, y1, x2, y2)] of a detected face, as the extractor
    unpacks it ([x1, y1, x2, y2 = bbox[0], bbox[1], bbox[2], bbox[3]]). *)
Record BBox : Type := mkBBox { bx1 : float; by1 : float; bx2 : float; by2 : float }.

(** A face returned by the model; [embedding] is [None] when the model
    attached none. *)
Record Face : Type := mkFace { bbox : BBox; embedding : option vector }.

(** What the repository takes from outside: the image codec behind
    [base64_to_image], the model call [self.app.get], the slice
    [image[y1:y2, x1:x2]] of the integer-cast box, [face_img.shape], and
    the dtype in which numpy evaluates an operation between the scalar of
    a dot product of two embeddings and a Python float: [Float32] for the
    [float32] embeddings of the face model under numpy 2, [Float64] for
    embeddings of [float64] and under numpy 1, which promotes such a pair
    of scalars to [float64]. *)
Class Backend : Type := {
  image : Type;
  base64_to_image : string → py image;
  app_get : image → py (list Face);
  crop : image → BBox → image;
  shape : image → list nat;
  scalar_dtype : Dtype
}.

(** The key of the selection, [lambda x: x.bbox[2] * x.bbox[3]]. *)
Definition face_key (x : Face) : float := F64.mul (bx2 (bbox x)) (by2 (bbox x)).

(** The face kept by the extractor:
    [max(faces, key=lambda x: x.bbox[2] * x.bbox[3])]. *)
Definition selected_face (faces : list Face) : option Face := py_max_by face_key faces.

(** [InsightFaceRecognition.detect_and_extract_face]: the pair
    [(face_img, embedding)], [(None, None)] without a face or on any error. *)
Definition detect_and_extract_face `{Backend} (img : image)
    : option image * option vector :=
  match app_get img with
  | Raise _ => (None, None)
  | Return faces =>
      match selected_face faces with
      | None => (None, None)
      | Some face => (Some (crop img (bbox face)), embedding face)
      end
  end.

(** The area of a box in the specification's words: width times height,
    [(x2 - x1) * (y2 - y1)]. *)
Definition spec_bbox_area (b : BBox) : float :=
  F64.mul (F64.sub (bx2 b) (bx1 b)) (F64.sub (by2 b) (by1 b)).

(* ===================================================================== *)
(** ** The store and its snapshot *)
(* ===================================================================== *)

(** An entry of [user_faces]. *)
Record FaceInfo `{Backend} : Type := mkFaceInfo {
  face_image : image;
  created_at : string;
  image_size : list nat
}.

(** The dictionary pickled into [user_data.pkl]; a field is [None] when the
    key is missing from it. *)
Record Pickle `{Backend} : Type := mkPickle {
  pk_embeddings : option (gmap string vector);
  pk_faces : option (gmap string FaceInfo)
}.

(** The file [user_data.pkl]: absent, not loadable (truncated by a failed
    dump, or not a pickled dictionary), or a pickled dictionary. What
    [pickle.load] returns is what [pickle.dump] was given: the file is
    modelled by the dictionary it holds. *)
Inductive File `{Backend} : Type :=
  | Missing
  | Unreadable
  | Pickled (data : Pickle).

(** The instance of [InsightFaceRecognition] together with the file it
    mirrors itself to. *)
Record State `{Backend} : Type := mkState {
  user_embeddings : gmap string vector;
  user_faces : gmap string FaceInfo;
  user_data_pkl : File
}.

(** What a write of the snapshot meets. *)
Inductive WriteOutcome : Type :=
  | WriteOk          (* the dump completes *)
  | OpenFails        (* [open] raises: the file is left as it was *)
  | DumpFails.       (* [pickle.dump] raises after the file was truncated *)

(** The outside world during one call: the clock behind
    [np.datetime64('now')] and the fate of a write. *)
Record World : Type := mkWorld { now : string; write : WriteOutcome }.

(** [load_user_data]. *)
Definition load_user_data `{Backend} (st : State) : State :=
  match user_data_pkl st with
  | Missing => st
  | Unreadable => st
  | Pickled data =>
      {| user_embeddings := default ∅ (pk_embeddings data);
         user_faces := default ∅ (pk_faces data);
         user_data_pkl := user_data_pkl st |}
  end.

(** [save_user_data]: a failure is logged and nothing else. *)
Definition save_user_data `{Backend} (w : World) (st : State) : State :=
  let data := {| pk_embeddings := Some (user_embeddings st);
                 pk_faces := Some (user_faces st) |} in
  match write w with
  | WriteOk => {| user_embeddings := user_embeddings st;
                  user_faces := user_faces st;
                  user_data_pkl := Pickled data |}
  | OpenFails => st
  | DumpFails => {| user_embeddings := user_embeddings st;
                    user_faces := user_faces st;
                    user_data_pkl := Unreadable |}
  end.

(** [__init__] once the model is prepared: two empty dictionaries, then
    [load_user_data]. *)
Definition init `{Backend} (disk : File) : State :=
  load_user_data {| user_embeddings := ∅; user_faces := ∅; user_data_pkl := disk |}.

(* ===================================================================== *)
(** ** Results *)
(* ===================================================================== *)

(** The [message] of a result dictionary. *)
Inductive Message : Type :=
  | MsgNoFace                  (* no face detected, or the detection failed *)
  | MsgUserExists              (* the user exists already, use another id *)
  | MsgRegistered              (* the face was registered *)
  | MsgRegisterFailed (e : string)   (* the registration failed: str(e) *)
  | MsgUserMissingRegister     (* the user does not exist, register first *)
  | MsgCompared                (* the comparison is done *)
  | MsgCompareFailed (e : string)    (* the comparison failed: str(e) *)
  | MsgUserMissing             (* the user does not exist *)
  | MsgUserInfo                (* the user's information was fetched *)
  | MsgAllUsers                (* all users were fetched *)
  | MsgDeleted                 (* the user was deleted *)
  | MsgDeleteFailed (e : string)     (* the deletion failed: str(e) *)
  | MsgBatchDone               (* the batch comparison is done *)
  | MsgBatchFailed (e : string).     (* the batch comparison failed: str(e) *)

(** A result dictionary: [{'success': True, 'message': m, 'data': d}] or
    [{'success': False, 'message': m}]. *)
Inductive Result (D : Type) : Type :=
  | Success (m : Message) (d : D)
  | Failure (m : Message).
Arguments Success {D} m d.
Arguments Failure {D} m.

Definition success {D : Type} (r : Result D) : bool :=
  match r with Success _ _ => true | Failure _ => false end.

Definition message {D : Type} (r : Result D) : Message :=
  match r with Success m _ => m | Failure m => m end.

(** The [data] of a registration. *)
Record RegisterData : Type := mkRegisterData {
  rd_userId : string;
  rd_faceData : string;
  rd_faceCount : nat
}.

(** The [data] of a comparison. *)
Record CompareData : Type := mkCompareData {
  similarity : float;
  isMatch : bool;
  confidence : float;
  threshold : float
}.

(** The [data] of a user: [userId], [createdAt], [imageSize]. *)
Record UserData : Type := mkUserData {
  ud_userId : string;
  ud_createdAt : string;
  ud_imageSize : list nat
}.

(* ===================================================================== *)
(** ** The operations of [InsightFaceRecognition] *)
(* ===================================================================== *)

(** [InsightFaceRecognition.register_face]. *)
Definition register_face `{Backend} (w : World) (user_id image_data : string)
    (st : State) : Result RegisterData * State :=
  match base64_to_image image_data with
  | Raise e => (Failure (MsgRegisterFailed e), st)
  | Return img =>
      match detect_and_extract_face img with
      | (Some face_img, Some emb) =>
          if decide (is_Some (user_embeddings st !! user_id)) then
            (Failure MsgUserExists, st)
          else
            let st1 :=
              {| user_embeddings := <[user_id := emb]> (user_embeddings st);
                 user_faces :=
                   <[user_id := {| face_image := face_img;
                                   created_at := now w;
                                   image_size := shape face_img |}]> (user_faces st);
                 user_data_pkl := user_data_pkl st |} in
            let st2 := save_user_data w st1 in
            (Success MsgRegistered
               {| rd_userId := user_id;
                  rd_faceData := "registered";
                  rd_faceCount := size (user_embeddings st2) |},
             st2)
      | _ => (Failure MsgNoFace, st)
      end
  end.

(** The dtype of what [cosine_similarity] returned. The clamp and the
    handler return their own literals [0.0] and [1.0], Python floats,
    whenever the dot product is not strictly between the two; every other
    similarity is the dot product itself, a numpy scalar. *)
Definition similarity_dtype `{Backend} (sim : float) : Dtype :=
  if SFeqb sim F64.zero || SFeqb sim F64.one then Float64 else scalar_dtype.

(** The decision of a comparison on a similarity of dtype [d]:
    [is_match = similarity >= threshold] and
    [confidence = min(similarity * 1.2, 1.0)], both operations between
    the similarity and a Python float; the result dictionary holds the
    [float(...)] of each number. *)
Definition decide_match (d : Dtype) (sim thr : float) : CompareData :=
  {| similarity := sim;
     isMatch := np_ge d sim thr;
     confidence := py_min (np_mul d sim F64.c1_2) F64.one;
     threshold := thr |}.

(** [InsightFaceRecognition.compare_faces]; the threshold is [None] when the
    request carried a null, and [similarity >= None] then raises. The
    instance is only read. *)
Definition compare_faces `{Backend} (user_id image_data : string)
    (thr : option float) (st : State) : Result CompareData :=
  match user_embeddings st !! user_id with
  | None => Failure MsgUserMissingRegister
  | Some stored_embedding =>
      match base64_to_image image_data with
      | Raise e => Failure (MsgCompareFailed e)
      | Return img =>
          match detect_and_extract_face img with
          | (Some face_img, Some emb) =>
              let sim := cosine_similarity emb stored_embedding in
              match thr with
              | None => Failure (MsgCompareFailed "'>=' not supported")
              | Some t =>
                  Success MsgCompared (decide_match (similarity_dtype sim) sim t)
              end
          | _ => Failure MsgNoFace
          end
      end
  end.

(** [InsightFaceRecognition.get_user_info]. *)
Definition get_user_info `{Backend} (user_id : string) (st : State) : Result UserData :=
  match user_faces st !! user_id with
  | None => Failure MsgUserMissing
  | Some user_info =>
      Success MsgUserInfo
        {| ud_userId := user_id;
           ud_createdAt := created_at user_info;
           ud_imageSize := image_size user_info |}
  end.

(** [InsightFaceRecognition.get_all_users]: the users and their count. The
    order of the dictionary's items is not modelled. *)
Definition get_all_users `{Backend} (st : State) : Result (list UserData * nat) :=
  let user_list :=
    map (λ kv, {| ud_userId := kv.1;
                  ud_createdAt := created_at kv.2;
                  ud_imageSize := image_size kv.2 |})
        (map_to_list (user_faces st)) in
  Success MsgAllUsers (user_list, length user_list).

(** [InsightFaceRecognition.delete_user]. The second [del] raises a
    [KeyError] when [user_faces] lacks the key: the handler then answers with
    the first deletion done and nothing saved. *)
Definition delete_user `{Backend} (w : World) (user_id : string) (st : State)
    : Result unit * State :=
  if decide (is_Some (user_embeddings st !! user_id)) then
    let st1 := {| user_embeddings := delete user_id (user_embeddings st);
                  user_faces := user_faces st;
                  user_data_pkl := user_data_pkl st |} in
    if decide (is_Some (user_faces st !! user_id)) then
      let st2 := {| user_embeddings := user_embeddings st1;
                    user_faces := delete user_id (user_faces st);
                    user_data_pkl := user_data_pkl st |} in
      (Success MsgDeleted (), save_user_data w st2)
    else (Failure (MsgDeleteFailed ("'" +:+ user_id +:+ "'")), st1)
  else (Failure MsgUserMissing, st).

(* ===================================================================== *)
(** ** The batch endpoint of [main.py] *)
(* ===================================================================== *)

(** [FaceCompareBatchRequest]. *)
Record FaceCompareBatchRequest : Type := mkBatchRequest {
  imageDataList : list string;
  userId : string;
  req_threshold : option float
}.

(** An entry of [results]: [{'index': i, **result['data']}]. *)
Record BatchResult : Type := mkBatchResult { br_index : nat; br_data : CompareData }.

(** An entry of [errors]: [{'index': i, 'error': result['message']}]. *)
Record BatchError : Type := mkBatchError { be_index : nat; be_error : Message }.

(** The [data] of the batch response. *)
Record BatchData : Type := mkBatchData {
  results : list BatchResult;
  errors : list BatchError;
  total : nat;
  successCount : nat;
  errorCount : nat
}.

(** What a handler gives back to the framework: a response model, or an
    [HTTPException] with its status code. *)
Inductive Http (A : Type) : Type :=
  | Response (a : A)
  | HTTPException (status_code : nat).
Arguments Response {A} a.
Arguments HTTPException {A} status_code.

(** The loop [for i, image_data in enumerate(request.imageDataList)], entered
    at index [i] with the two lists built so far. [compare_faces] catches
    every exception itself, so the loop's own handler is never reached. *)
Fixpoint batch_loop `{Backend} (st : State) (user_id : string) (thr : option float)
    (i : nat) (items : list string)
    (results : list BatchResult) (errors : list BatchError)
    : list BatchResult * list BatchError :=
  match items with
  | [] => (results, errors)
  | image_data :: rest =>
      match compare_faces user_id image_data thr st with
      | Success _ d =>
          batch_loop st user_id thr (S i) rest
            (results ++ [{| br_index := i; br_data := d |}]) errors
      | Failure m =>
          batch_loop st user_id thr (S i) rest
            results (errors ++ [{| be_index := i; be_error := m |}])
      end
  end.

(** [face_compare_batch]; [face_recognition] is the global instance, [None]
    until the service is ready. *)
Definition face_compare_batch `{Backend} (face_recognition : option State)
    (request : FaceCompareBatchRequest) : Http (Result BatchData) :=
  match face_recognition with
  | None => HTTPException 503
  | Some st =>
      let '(results, errors) :=
        batch_loop st (userId request) (req_threshold request) 0
          (imageDataList request) [] [] in
      Response (Success MsgBatchDone
        {| results := results;
           errors := errors;
           total := length (imageDataList request);
           successCount := length results;
           errorCount := length errors |})
  end.

(** The batch in the specification's words: every payload is compared on its
    own, in input order, and tagged with its position; the successes and the
    failures are then collected apart. *)
Fixpoint enumerate_from {A : Type} (i : nat) (l : list A) : list (nat * A) :=
  match l with
  | [] => []
  | x :: l' => (i, x) :: enumerate_from (S i) l'
  end.

Definition spec_batch_outcomes `{Backend} (st : State) (request : FaceCompareBatchRequest)
    : list (nat * Result CompareData) :=
  map (λ p, (p.1, compare_faces (userId request) p.2 (req_threshold request) st))
      (enumerate_from 0 (imageDataList request)).

Definition outcome_result (o : nat * Result CompareData) : option BatchResult :=
  match o.2 with
  | Success _ d => Some {| br_index := o.1; br_data := d |}
  | Failure _ => None
  end.

Definition outcome_error (o : nat * Result CompareData) : option BatchError :=
  match o.2 with
  | Success _ _ => None
  | Failure m => Some {| be_index := o.1; be_error := m |}
  end.

(* ===================================================================== *)
(** ** The operations as one step function, and the store invariant *)
(* ===================================================================== *)

(** A call on the instance. *)
Inductive Op : Type :=
  | OpRegister (user_id image_data : string)
  | OpCompare (user_id image_data : string) (thr : option float)
  | OpDelete (user_id : string)
  | OpGet (user_id : string)
  | OpList
  | OpLoad.

(** The state a call leaves behind. *)
Definition exec `{Backend} (w : World) (op : Op) (st : State) : State :=
  match op with
  | OpRegister user_id image_data => (register_face w user_id image_data st).2
  | OpCompare _ _ _ => st
  | OpDelete user_id => (delete_user w user_id st).2
  | OpGet _ => st
  | OpList => st
  | OpLoad => load_user_data st
  end.

(** The two dictionaries hold the same user ids. *)
Definition same_keys `{Backend} (st : State) : Prop :=
  dom (user_embeddings st) = dom (user_faces st).

(** The same of the snapshot on disk, when there is one to load. *)
Definition snapshot_same_keys `{Backend} (f : File) : Prop :=
  match f with
  | Pickled data =>
      dom (default ∅ (pk_embeddings data)) = dom (default ∅ (pk_faces data))
  | _ => True
  end.

(** The snapshot a successful write leaves: the two dictionaries as they are. *)
Definition snapshot_of `{Backend} (st : State) : File :=
  Pickled {| pk_embeddings := Some (user_embeddings st);
             pk_faces := Some (user_faces st) |}.

(** A history of calls, each with the world it met, run from a state. *)
Fixpoint run `{Backend} (calls : list (World * Op)) (st : State) : State :=
  match calls with
  | [] => st
  | (w, op) :: rest => run rest (exec w op st)
  end.

(** The minimum of two numbers in the specification's words: the first when
    it is at most the second, the second otherwise. *)
Definition spec_min (a b : float) : float := if F64.le a b then a else b.

(* ===================================================================== *)
(** ** The image decoder, the health check and the registration endpoint *)
(* ===================================================================== *)

(** [c in s] for a one-character [c]. *)
Fixpoint contains_char (c : ascii) (s : string) : bool :=
  match s with
  | EmptyString => false
  | String a s' => if Ascii.eqb a c then true else contains_char c s'
  end.

(** [s.split(sep)] for a one-character separator: the pieces between the
    separators, one more than there are separators. *)
Fixpoint py_split (sep : ascii) (s : string) : list string :=
  match s with
  | EmptyString => [EmptyString]
  | String a s' =>
      if Ascii.eqb a sep then EmptyString :: py_split sep s'
      else match py_split sep s' with
           | piece :: rest => String a piece :: rest
           | [] => [String a EmptyString]
           end
  end.

(** The head of [base64_to_image]:
    [if ',' in base64_data: base64_data = base64_data.split(',')[1]]. *)
Definition data_uri_payload (base64_data : string) : py string :=
  if contains_char ","%char base64_data then
    match py_split ","%char base64_data with
    | _ :: piece :: _ => Return piece
    | _ => Raise "list index out of range"
    end
  else Return base64_data.

(** The message of the [ValueError] that [base64_to_image] raises. *)
Definition invalid_image (e : string) : string := "无效的图片数据: " +:+ e.

(** [InsightFaceRecognition.base64_to_image] over the library calls it
    chains, [base64.b64decode], [Image.open] and [cv2.cvtColor], taken
    together as [decode_pixels]: whatever is raised on the way is raised
    again as a [ValueError]. *)
Definition base64_to_image_body {I : Type} (decode_pixels : string → py I)
    (base64_data : string) : py I :=
  match data_uri_payload base64_data with
  | Raise e => Raise (invalid_image e)
  | Return payload =>
      match decode_pixels payload with
      | Return img => Return img
      | Raise e => Raise (invalid_image e)
      end
  end.

(** A backend whose [base64_to_image] is the repository's own function over
    a pixel decoder. *)
Definition decoder_backend {I : Type} (decode_pixels : string → py I)
    (get : I → py (list Face)) (slice : I → BBox → I) (dims : I → list nat)
    (dtype : Dtype) : Backend :=
  {| image := I;
     base64_to_image := base64_to_image_body decode_pixels;
     app_get := get;
     crop := slice;
     shape := dims;
     scalar_dtype := dtype |}.

(** The dictionary of [InsightFaceRecognition.health_check]. *)
Record HealthInfo : Type := mkHealthInfo {
  hi_status : string;
  hi_timestamp : string;
  hi_userCount : nat;
  hi_modelLoaded : bool
}.

(** [InsightFaceRecognition.health_check]; the instance has its [app]
    attribute from [__init__] on. *)
Definition health_check `{Backend} (w : World) (st : State) : HealthInfo :=
  {| hi_status := "healthy";
     hi_timestamp := now w;
     hi_userCount := size (user_embeddings st);
     hi_modelLoaded := true |}.

(** [FaceInitRequest]. *)
Record FaceInitRequest : Type := mkFaceInitRequest {
  fi_imageData : string;
  fi_userId : option string
}.

(** [request.userId or fallback]: [None] and the empty string are falsy. *)
Definition userId_or (userId : option string) (fallback : string) : string :=
  match userId with
  | Some (String a s) => String a s
  | _ => fallback
  end.

(** [face_init] of [main.py]; [stamp] is the text of
    [datetime.now().timestamp()]. The response carries the success flag,
    the message and the data of the registration result as they are. The
    global instance is returned with the response. *)
Definition face_init `{Backend} (face_recognition : option State) (w : World)
    (stamp : string) (request : FaceInitRequest)
    : Http (Result RegisterData) * option State :=
  match face_recognition with
  | None => (HTTPException 503, None)
  | Some st =>
      let userId := userId_or (fi_userId request) ("user_" +:+ stamp) in
      let result := register_face w userId (fi_imageData request) st in
      (Response result.1, Some result.2)
  end.

(** [face_compare] of [main.py]. *)
Record FaceCompareRequest : Type := mkFaceCompareRequest {
  fc_imageData : string;
  fc_userId : string;
  fc_threshold : option float
}.

Definition face_compare `{Backend} (face_recognition : option State)
    (request : FaceCompareRequest) : Http (Result CompareData) :=
  match face_recognition with
  | None => HTTPException 503
  | Some st =>
      Response (compare_faces (fc_userId request) (fc_imageData request)
                  (fc_threshold request) st)
  end.

(** A restart: the process ends and a new instance is built on the file
    as the last call left it; the save that [lifespan] attempts at an
    orderly shutdown is not part of it. *)
Definition restart `{Backend} (st : State) : State := init (user_data_pkl st).

(** A restart loses nothing: the new instance has the two dictionaries of
    the old one. *)
Definition recoverable `{Backend} (st : State) : Prop :=
  user_embeddings (restart st) = user_embeddings st ∧
  user_faces (restart st) = user_faces st.

(** No key of the list is a NaN. *)
Definition keys_are_numbers (faces : list Face) : Prop :=
  ∀ g, g ∈ faces → F64.is_nan (face_key g) = false.

(* ===================================================================== *)
(** ** A small backend to run the operations on *)
(* ===================================================================== *)

Module Demo.

Definition box (x1 y1 x2 y2 : Z) : BBox :=
  {| bx1 := F64.of_Z x1; by1 := F64.of_Z y1; bx2 := F64.of_Z x2; by2 := F64.of_Z y2 |}.

(** A face of 200 by 200 pixels near the origin, and one of 40 by 40 pixels
    towards the far corner of the picture. *)
Definition near_face : Face :=
  {| bbox := box 10 10 210 210; embedding := Some [F64.one; F64.zero] |}.
Definition far_face : Face :=
  {| bbox := box 400 300 440 340; embedding := Some [F64.zero; F64.one] |}.

(** A picture is the list of the faces on it; the three payloads below
    decode, every other one is rejected by the codec. *)
Definition backend : Backend :=
  {| image := list Face;
     base64_to_image := λ payload,
       if decide (payload = "portrait") then Return [near_face]
       else if decide (payload = "group") then Return [near_face; far_face]
       else if decide (payload = "landscape") then Return []
       else Raise "cannot identify image file";
     app_get := λ img, Return img;
     crop := λ img _, img;
     shape := λ _, [200; 200; 3]%nat;
     scalar_dtype := Float32 |}.

Definition world : World := {| now := "2024-01-01T00:00:00"; write := WriteOk |}.

(** A fresh instance without a snapshot, and the same after "alice"
    registered. *)
Definition empty_state : @State backend := @init backend (@Missing backend).
Definition alice_state : @State backend :=
  (@register_face backend world "alice" "portrait" empty_state).2.

(** The embedding of two zeros, and a unit vector. *)
Definition zero_vector : vector := [F64.zero; F64.zero].
Definition unit_vector : vector := [F64.one; F64.zero].

Definition half : float := S754_finite false 4503599627370496 (-53).  (* 0.5 *)

(** [np.float32(0.7)], [np.float32(1.2)] and [np.float32(0.6)], each in
    binary64 form: 0.699999988079071, 1.2000000476837158 and
    0.6000000238418579. *)
Definition float32_0_7 : float := S754_finite false 6305039370944512 (-53).
Definition float32_1_2 : float := S754_finite false 5404319767592960 (-52).
Definition float32_0_6 : float := S754_finite false 5404319767592960 (-53).

(** A snapshot whose dictionary has the key ['embeddings'] and lacks the key
    ['faces'], and a fresh instance next to it, not loaded yet. *)
Definition partial_snapshot : @File backend :=
  @Pickled backend {| pk_embeddings := Some {[ "alice" := unit_vector ]};
                      pk_faces := None |}.
Definition unloaded_state : @State backend :=
  {| user_embeddings := ∅; user_faces := ∅; user_data_pkl := partial_snapshot |}.

(** A second face with the key of [near_face]. *)
Definition twin_face : Face :=
  {| bbox := box 110 110 210 210; embedding := Some [F64.zero; F64.one] |}.

End Demo.

(** More sample values: a pixel decoder that reads the three payloads of
    [Demo.backend], and an instance whose dictionaries disagree. *)
Module Sample.

Definition decode_pixels (payload : string) : py (list Face) :=
  if decide (payload = "portrait") then Return [Demo.near_face]
  else if decide (payload = "group") then Return [Demo.near_face; Demo.far_face]
  else if decide (payload = "landscape") then Return []
  else Raise "cannot identify image file".

Definition backend : Backend :=
  decoder_backend decode_pixels (λ img, Return img) (λ img _, img)
    (λ _, [200; 200; 3]%nat) Float32.

Definition empty_state : @State backend := @init backend (@Missing backend).
Definition alice_state : @State backend :=
  (@register_face backend Demo.world "alice" "portrait" empty_state).2.

(** Python floats on which the two conversions to [float32] are compared:
    literals of the source and thresholds near them, numbers next to [1.0],
    numbers around the least normal and the least positive [float32],
    halfway cases, numbers around the greatest [float32], and negatives. *)
Definition python_floats : list float :=
  [ F64.zero; F64.one; F64.c1_2; F64.c0_6; F64.c0_7; Demo.half;
    S754_finite false 4503599627820856 (-52);   (* 1.0000000001 *)
    S754_finite false 9007199164668999 (-53);   (* 0.99999999 *)
    S754_finite false 9007198986305536 (-53);   (* 0.9999999701976776 *)
    S754_finite false 7205759403792794 (-56);   (* 0.1 *)
    S754_finite false 6755399441055744 (-51);   (* 3.0 *)
    S754_finite false 8285044871132086 (-26);   (* 123456789.123 *)
    S754_finite false 4503599895805952 (-28);   (* 16777217.0, halfway *)
    S754_finite false 4503600164241408 (-28);   (* 16777218.0 *)
    S754_finite false 4503600432676864 (-28);   (* 16777219.0, halfway *)
    S754_finite false 4503599627370496 (-77);   (* 2 ^ -25 *)
    S754_finite false 7662477704329444 (-179);  (* 1e-38 *)
    S754_finite false 4503599627370496 (-178);  (* 2 ^ -126 *)
    S754_finite false 9007198099068577 (-179);  (* 1.1754942e-38 *)
    S754_finite false 4903985730770844 (-185);  (* 1e-40 *)
    S754_finite false 6427752177035961 (-202);  (* 1e-45 *)
    S754_finite false 8998853047850346 (-203);  (* 7e-46 *)
    S754_finite false 4503599627370496 (-202);  (* 2 ^ -150, halfway to zero *)
    S754_finite false 4503599627370497 (-202);  (* the next above it *)
    S754_finite false 6749139785887759 (-201);  (* 2.1e-45 *)
    S754_finite false 6755399441055744 (-201);  (* 1.5 * 2 ^ -149, halfway *)
    S754_finite false 5629499534213121 (-200);  (* just above 1.25 * 2 ^ -148 *)
    S754_finite false 5142201741628769 (-205);  (* 1e-46 *)
    S754_finite false 1 (-1074);                (* 5e-324 *)
    S754_finite false 20240225330731 (-1074);   (* 1e-310 *)
    S754_finite false 9007198717870080 75;      (* the greatest float32 *)
    S754_finite false 9007198986305518 75;      (* just below the overflow *)
    S754_finite false 9007198986305536 75;      (* halfway to 2 ^ 128 *)
    S754_finite false 4632211430296955 76;      (* 3.5e38 *)
    S754_finite false 5010420900022432 971;     (* 1e308 *)
    S754_finite false 9007199254740991 971;     (* the greatest float *)
    S754_finite true 6305039478318694 (-53);    (* -0.7 *)
    S754_finite true 5142201741628769 (-205);   (* -1e-46 *)
    S754_finite true 6617444900424221 77;       (* -1e39 *)
    S754_zero true; S754_infinity false; S754_infinity true; S754_nan ].

(** [Demo.unloaded_state] after [load_user_data]: "alice" has an embedding
    and no entry in [user_faces]. *)
Definition split_state : @State Demo.backend :=
  @load_user_data Demo.backend Demo.unloaded_state.

Definition failing_world : World :=
  {| now := "2024-01-01T00:00:00"; write := DumpFails |}.

(** Two embeddings of four entries whose cosine is 0.5 without any rounding,
    in [float32] as in [float64], a backend of either dtype that decodes
    them, and its instance after "bob" registered with the first. *)
Definition axis_face : Face :=
  {| bbox := Demo.box 10 10 210 210;
     embedding := Some [F64.one; F64.zero; F64.zero; F64.zero] |}.
Definition quad_face : Face :=
  {| bbox := Demo.box 10 10 210 210;
     embedding := Some [F64.one; F64.one; F64.one; F64.one] |}.

Definition decode_quads (payload : string) : py (list Face) :=
  if decide (payload = "axis") then Return [axis_face]
  else if decide (payload = "quad") then Return [quad_face]
  else Raise "cannot identify image file".

Definition quad_backend (dtype : Dtype) : Backend :=
  decoder_backend decode_quads (λ img, Return img) (λ img _, img)
    (λ _, [200; 200; 3]%nat) dtype.

Definition bob_state (dtype : Dtype) : @State (quad_backend dtype) :=
  (@register_face (quad_backend dtype) Demo.world "bob" "axis"
     (@init (quad_backend dtype) (@Missing (quad_backend dtype)))).2.

End Sample.

(* ===================================================================== *)
(** ** The order of binary64 numbers *)
(* ===================================================================== *)

(** The literals are the floats nearest to the decimals they are written as. *)
Example literals_rounded :
  F64.one = F64.of_Z 1 ∧
  F64.c1_2 = F64.div (F64.of_Z 12) (F64.of_Z 10) ∧
  F64.c0_6 = F64.div (F64.of_Z 6) (F64.of_Z 10) ∧
  Demo.half = F64.div (F64.of_Z 1) (F64.of_Z 2).
Proof. repeat split; vm_compute; reflexivity. Qed.

(** [min(a, b)] is [b] when [b < a] and [a] otherwise; [max(a, b)] is [b]
    when [b > a] and [a] otherwise. *)
Lemma py_min_unfold (a b : float) : py_min a b = if F64.lt b a then b else a.
Proof. reflexivity. Qed.

Lemma py_max_unfold (a b : float) : py_max a b = if F64.lt a b then b else a.
Proof. reflexivity. Qed.

Lemma SFcompare_swap (x y : float) :
  SFcompare y x = CompOpp <$> SFcompare x y.
Proof.
  destruct x as [sx|sx| |sx mx ex], y as [sy|sy| |sy my ey]; simpl;
    try reflexivity; try (destruct sx; reflexivity); try (destruct sy; reflexivity);
    try (destruct sx, sy; reflexivity).
  destruct sx, sy; simpl; try reflexivity; f_equal;
    rewrite (Z.compare_antisym ex ey); destruct (ex ?= ey)%Z; simpl;
    try reflexivity; rewrite (ZC4 my mx); reflexivity.
Qed.

Lemma SFcompare_number (x y : float) :
  F64.is_nan x = false → F64.is_nan y = false → is_Some (SFcompare x y).
Proof.
  destruct x, y; simpl; intros; try discriminate; eauto.
Qed.

Lemma lt_le (x y : float) : F64.lt x y = true → F64.le x y = true.
Proof.
  unfold F64.lt, F64.le, SFltb, SFleb.
  destruct (SFcompare x y) as [[]|]; intros; congruence.
Qed.

Lemma le_not_nan_l (x y : float) : F64.le x y = true → F64.is_nan x = false.
Proof. destruct x; [reflexivity..|discriminate|reflexivity]. Qed.

Lemma lt_irrefl (x : float) : F64.lt x x = false.
Proof.
  unfold F64.lt, SFltb.
  destruct x as [s|s| |s m e]; simpl; try reflexivity; try (now destruct s).
  destruct s; rewrite Z.compare_refl, Pos.compare_cont_refl; reflexivity.
Qed.

Lemma lt_trans (x y z : float) :
  F64.lt x y = true → F64.lt y z = true → F64.lt x z = true.
Proof.
  unfold F64.lt, SFltb.
  destruct x as [sx|sx| |sx mx ex], y as [sy|sy| |sy my ey], z as [sz|sz| |sz mz ez];
    simpl; try discriminate;
    destruct sx; try discriminate; destruct sy; try discriminate;
    destruct sz; try discriminate; try reflexivity;
    change (Pos.compare_cont Eq) with Pos.compare;
    destruct (Z.compare_spec ex ey), (Z.compare_spec ey ez), (Z.compare_spec ex ez);
    try discriminate; try reflexivity; try lia;
    destruct (Pos.compare_spec mx my), (Pos.compare_spec my mz),
             (Pos.compare_spec mx mz);
    simpl; try discriminate; try reflexivity; lia.
Qed.

(** On numbers, [y < x] fails exactly when [x <= y] holds. *)
Lemma lt_swap_le (x y : float) :
  F64.is_nan x = false → F64.is_nan y = false →
  F64.lt y x = negb (F64.le x y).
Proof.
  intros Hx Hy. unfold F64.lt, F64.le, SFltb, SFleb.
  rewrite (SFcompare_swap x y).
  destruct (SFcompare_number x y Hx Hy) as [c ->]. now destruct c.
Qed.

(** Python's [min] is the minimum on numbers. *)
Lemma py_min_spec_min (a b : float) :
  F64.is_nan a = false → F64.is_nan b = false → py_min a b = spec_min a b.
Proof.
  intros Ha Hb. unfold py_min, spec_min; simpl. unfold id.
  rewrite (lt_swap_le a b Ha Hb). now destruct (F64.le a b).
Qed.

(** *** Rounding never makes a NaN of a non-negative mantissa *)

Lemma shr_1_nonneg (mrs : shr_record) : (0 ≤ shr_m mrs)%Z → (0 ≤ shr_m (shr_1 mrs))%Z.
Proof.
  destruct mrs as [m r s]; simpl. destruct m as [|[p|p|]|[p|p|]]; simpl; lia.
Qed.

Lemma iter_pos_shr_1_nonneg (n : positive) (mrs : shr_record) :
  (0 ≤ shr_m mrs)%Z → (0 ≤ shr_m (@SpecFloat.iter_pos shr_record shr_1 n mrs))%Z.
Proof.
  revert mrs. induction n as [n IH|n IH|]; intros mrs Hm; simpl.
  - apply IH, IH, shr_1_nonneg, Hm.
  - apply IH, IH, Hm.
  - apply shr_1_nonneg, Hm.
Qed.

Lemma shr_fexp_nonneg (prec emax m e : Z) (l : location) :
  (0 ≤ m)%Z → (0 ≤ shr_m (shr_fexp prec emax m e l).1)%Z.
Proof.
  intros Hm. unfold shr_fexp, shr.
  assert (H0 : (0 ≤ shr_m (shr_record_of_loc m l))%Z)
    by (destruct l as [|[]]; exact Hm).
  destruct (fexp prec emax (Zdigits2 m + e) - e)%Z; simpl; auto.
  now apply iter_pos_shr_1_nonneg.
Qed.

Lemma round_nearest_even_nonneg (m : Z) (l : location) :
  (0 ≤ m)%Z → (0 ≤ round_nearest_even m l)%Z.
Proof.
  intros Hm. destruct l as [|[]]; simpl; try lia. destruct (Z.even m); lia.
Qed.

(** Rounding a non-negative mantissa keeps the sign it is given, in every
    format. *)
Lemma binary_round_aux_sign (prec emax : Z) (sx : bool) (mx ex : Z) (lx : location) :
  (0 ≤ mx)%Z →
  match binary_round_aux prec emax sx mx ex lx with
  | S754_zero s | S754_infinity s | S754_finite s _ _ => s = sx
  | S754_nan => False
  end.
Proof.
  intros Hm. unfold binary_round_aux.
  pose proof (shr_fexp_nonneg prec emax mx ex lx Hm) as H1.
  destruct (shr_fexp prec emax mx ex lx) as [mrs' e']; simpl in H1.
  pose proof (shr_fexp_nonneg prec emax _ e' loc_Exact
                (round_nearest_even_nonneg _ (loc_of_shr_record mrs') H1)) as H2.
  destruct (shr_fexp prec emax _ e' loc_Exact) as [mrs'' e'']; simpl in H2.
  destruct (shr_m mrs''); [reflexivity| |lia].
  now destruct (e'' <=? emax - prec)%Z.
Qed.

Lemma binary_round_aux_number (prec emax : Z) (sx : bool) (mx ex : Z) (lx : location) :
  (0 ≤ mx)%Z → F64.is_nan (binary_round_aux prec emax sx mx ex lx) = false.
Proof.
  intros Hm. pose proof (binary_round_aux_sign prec emax sx mx ex lx Hm) as Hs.
  now destruct (binary_round_aux prec emax sx mx ex lx).
Qed.

(** [float(x)] of a [float32] is a number when [x] is, and is not negative
    when [x] is not. *)
Lemma to_python_number (x : float) :
  F64.is_nan x = false → F64.is_nan (F32.to_python x) = false.
Proof.
  destruct x as [s|s| |s m e]; simpl; try easy. intros _.
  unfold binary_round. destruct (shl_align m e _) as [mz ez].
  apply binary_round_aux_number. lia.
Qed.

Lemma to_python_nonneg (x : float) : nonneg_shape x → nonneg_shape (F32.to_python x).
Proof.
  destruct x as [s|s| |s m e]; simpl; try easy. destruct s; [easy|]. intros _.
  unfold binary_round. destruct (shl_align m e _) as [mz ez].
  pose proof (binary_round_aux_sign F64.prec F64.emax false (Z.pos mz) ez
                loc_Exact) as Hs.
  destruct (binary_round_aux _ _ _ _ _ _);
    try (rewrite Hs by lia; exact I).
  apply Hs. lia.
Qed.

(** So is the product with a finite number that is not negative, in every
    format. *)
Lemma SFmul_finite_number (prec emax : Z) (s : float) (m : positive) (e : Z) :
  F64.is_nan s = false →
  F64.is_nan (SFmul prec emax s (S754_finite false m e)) = false.
Proof.
  destruct s as [sx|sx| |sx mx ex]; simpl; try easy. intros _.
  apply binary_round_aux_number. lia.
Qed.

Lemma SFmul_finite_nonneg (prec emax : Z) (s : float) (m : positive) (e : Z) :
  nonneg_shape s → nonneg_shape (SFmul prec emax s (S754_finite false m e)).
Proof.
  destruct s as [[]|[]| |[] mx ex]; simpl; try easy. intros _.
  pose proof (binary_round_aux_sign prec emax false (Z.pos (mx * m)) (ex + e)
                loc_Exact) as Hs.
  destruct (binary_round_aux _ _ _ _ _ _);
    try (rewrite Hs by lia; exact I).
  apply Hs. lia.
Qed.

(** [np.float32(1.2)]. *)
Lemma of_python_c1_2 : F32.of_python F64.c1_2 = Demo.float32_1_2.
Proof. vm_compute. reflexivity. Qed.

(** The product of a number with the literal [1.2] is a number, in the
    arithmetic of either dtype. *)
Lemma mul_c1_2_number (d : Dtype) (s : float) :
  F64.is_nan s = false → F64.is_nan (np_mul d s F64.c1_2) = false.
Proof.
  intros Hs. destruct d; unfold np_mul.
  - rewrite of_python_c1_2.
    now apply to_python_number, SFmul_finite_number.
  - now apply SFmul_finite_number.
Qed.

(** The clamp [max(0.0, min(1.0, x))] lands in [[0, 1]] whatever [x] is. *)
Lemma clamp_unit_interval (x : float) :
  let r := py_max F64.zero (py_min F64.one x) in
  F64.le F64.zero r = true ∧ F64.le r F64.one = true.
Proof.
  unfold py_max, py_min; simpl; unfold id.
  destruct (F64.lt x F64.one) eqn:Hx1.
  - destruct (F64.lt F64.zero x) eqn:H0x.
    + split; now apply lt_le.
    + split; reflexivity.
  - split; reflexivity.
Qed.

(** A NaN among the products poisons the whole sum. *)
Lemma dot_acc_nan (v w : vector) : dot_acc S754_nan v w = S754_nan.
Proof.
  revert w. induction v as [|x v IH]; intros [|y w]; simpl; try reflexivity.
  apply IH.
Qed.

Lemma clamp_nan : py_max F64.zero (py_min F64.one S754_nan) = F64.one.
Proof. reflexivity. Qed.

(** Either the clamp or the handler's [0.0] is returned. *)
Lemma cosine_similarity_cases (a b : vector) :
  (∃ x, cosine_similarity a b = py_max F64.zero (py_min F64.one x)) ∨
  cosine_similarity a b = F64.zero.
Proof.
  unfold cosine_similarity. destruct (np_dot _ _) as [x|msg]; eauto.
Qed.

Lemma cosine_similarity_lower (a b : vector) :
  F64.le F64.zero (cosine_similarity a b) = true.
Proof.
  destruct (cosine_similarity_cases a b) as [[x ->]| ->];
    [apply clamp_unit_interval | reflexivity].
Qed.

Lemma cosine_similarity_upper (a b : vector) :
  F64.le (cosine_similarity a b) F64.one = true.
Proof.
  destruct (cosine_similarity_cases a b) as [[x ->]| ->];
    [apply clamp_unit_interval | reflexivity].
Qed.

Lemma dot_acc_zeros (n : nat) :
  dot_acc F64.zero (repeat F64.zero n) (repeat F64.zero n) = F64.zero.
Proof. induction n as [|n IH]; [reflexivity|exact IH]. Qed.

(** The norm of a vector of zeros is zero, and dividing by it makes every
    entry a NaN. *)
Lemma np_linalg_norm_zeros (n : nat) : np_linalg_norm (repeat F64.zero n) = F64.zero.
Proof. unfold np_linalg_norm. now rewrite dot_acc_zeros. Qed.

Lemma np_divide_zeros (n : nat) :
  np_divide (repeat F64.zero n) F64.zero = repeat S754_nan n.
Proof. induction n as [|n IH]; simpl; [reflexivity|now rewrite IH]. Qed.

(** A vector of zeros is as similar as can be to every vector of its length. *)
Lemma cosine_similarity_zeros (n : nat) (w : vector) :
  length w = S n → cosine_similarity (repeat F64.zero (S n)) w = F64.one.
Proof.
  intros Hlen. unfold cosine_similarity.
  rewrite np_linalg_norm_zeros, np_divide_zeros.
  unfold np_dot, np_divide. rewrite decide_True
    by (now rewrite length_map, repeat_length, Hlen).
  destruct w as [|y w]; [discriminate|]. simpl.
  rewrite dot_acc_nan. apply clamp_nan.
Qed.

(* ===================================================================== *)
(** ** The matcher *)
(* ===================================================================== *)

(** C2 (the code departs from it): on the zero vector and a unit vector, both
    of length two, [cosine_similarity] does not raise and returns [1.0], not
    [0.0]: the division by the zero norm yields NaN entries without raising,
    and [min(1.0, nan)] keeps its first argument. *)
Theorem cosine_similarity_zero_norm_is_one :
  np_linalg_norm Demo.zero_vector = F64.zero ∧
  cosine_similarity Demo.zero_vector Demo.unit_vector = F64.one ∧
  cosine_similarity Demo.zero_vector Demo.unit_vector ≠ F64.zero.
Proof. repeat split; [vm_compute; reflexivity..|discriminate]. Qed.

(** C3: on every similarity that is a number, in particular on every value of
    [[0, 1]], and every threshold, the decision has [isMatch] equal to
    [similarity >= threshold] and [confidence] equal to the minimum of
    [similarity * 1.2] and [1.0], where the comparison and the product are
    those of the similarity's dtype: for a [float32] scalar the threshold
    and [1.2] are first rounded to [float32] and so is the product, for a
    binary64 number they are the comparison and the product of Python
    floats. *)
Theorem decide_match_spec (d : Dtype) (s t : float) :
  F64.is_nan s = false →
  isMatch (decide_match d s t) = F64.ge s (np_weak d t) ∧
  confidence (decide_match d s t) = spec_min (np_mul d s F64.c1_2) F64.one ∧
  similarity (decide_match d s t) = s ∧
  threshold (decide_match d s t) = t.
Proof.
  intros Hs. repeat split. simpl.
  apply py_min_spec_min; [now apply mul_c1_2_number | reflexivity].
Qed.

Lemma decide_match_spec_witness :
  isMatch (decide_match Float32 Demo.float32_0_7 F64.c0_7)
    = F64.ge Demo.float32_0_7 (np_weak Float32 F64.c0_7) ∧
  confidence (decide_match Float32 Demo.float32_0_7 F64.c0_7)
    = spec_min (np_mul Float32 Demo.float32_0_7 F64.c1_2) F64.one ∧
  similarity (decide_match Float32 Demo.float32_0_7 F64.c0_7) = Demo.float32_0_7 ∧
  threshold (decide_match Float32 Demo.float32_0_7 F64.c0_7) = F64.c0_7.
Proof.
  apply (decide_match_spec Float32 Demo.float32_0_7 F64.c0_7). reflexivity.
Defined.

(** The claim read on the numbers themselves fails for a [float32]
    similarity. With the similarity [np.float32(0.7)], which is
    0.699999988079071, and the threshold [0.7], the decision is a match,
    because the threshold is rounded to the same [float32], although the
    similarity is below the threshold; and with the similarity
    [np.float32(0.5)] the confidence is [np.float32(0.6)], which is
    0.6000000238418579, and not the 0.6 that [0.5 * 1.2] is on Python
    floats. *)
Theorem decide_match_float32_rounds :
  isMatch (decide_match Float32 Demo.float32_0_7 F64.c0_7) = true ∧
  F64.ge Demo.float32_0_7 F64.c0_7 = false ∧
  confidence (decide_match Float32 Demo.half F64.c0_7) = Demo.float32_0_6 ∧
  spec_min (F64.mul Demo.half F64.c1_2) F64.one = F64.c0_6 ∧
  Demo.float32_0_6 ≠ F64.c0_6.
Proof. repeat split; [vm_compute; reflexivity..|discriminate]. Qed.

(** On binary64 numbers the comparison and the product are those of
    Python floats; on a [float32] they are taken after the Python float is
    rounded, and the product is rounded once more. *)
Lemma decide_match_binary64 (s t : float) :
  F64.is_nan s = false →
  isMatch (decide_match Float64 s t) = F64.ge s t ∧
  confidence (decide_match Float64 s t) = spec_min (F64.mul s F64.c1_2) F64.one.
Proof.
  intros Hs. split; [reflexivity|].
  apply (py_min_spec_min (np_mul Float64 s F64.c1_2));
    [now apply mul_c1_2_number | reflexivity].
Qed.

Lemma decide_match_binary32 (s t : float) :
  F64.is_nan s = false →
  isMatch (decide_match Float32 s t) = F64.ge s (F32.of_python t) ∧
  confidence (decide_match Float32 s t)
    = spec_min (F32.mul s (F32.of_python F64.c1_2)) F64.one.
Proof.
  intros Hs. split; [reflexivity|].
  apply (py_min_spec_min (np_mul Float32 s F64.c1_2));
    [now apply mul_c1_2_number | reflexivity].
Qed.

(** So it is for a [float32] similarity and a threshold that is itself a
    [float32], such as 0.5. *)
Lemma decide_match_exact_threshold (d : Dtype) (s t : float) :
  F32.of_python t = t → isMatch (decide_match d s t) = F64.ge s t.
Proof. intros Ht. destruct d; simpl; unfold np_ge, np_weak; now rewrite ?Ht. Qed.

(** C4: whatever the two vectors, the value of [cosine_similarity] lies in the
    closed interval from [0.0] to [1.0]. *)
Theorem cosine_similarity_unit_interval (a b : vector) :
  F64.le F64.zero (cosine_similarity a b) = true ∧
  F64.le (cosine_similarity a b) F64.one = true.
Proof. split; [apply cosine_similarity_lower | apply cosine_similarity_upper]. Qed.

(** A successful comparison is the decision on the cosine similarity, and
    that similarity is a number. *)
Lemma compare_faces_success `{Backend} (uid img : string) (thr : option float)
    (st : State) (m : Message) (d : CompareData) :
  compare_faces uid img thr st = Success m d →
  ∃ emb stored t,
    user_embeddings st !! uid = Some stored ∧ thr = Some t ∧
    d = decide_match (similarity_dtype (cosine_similarity emb stored))
          (cosine_similarity emb stored) t ∧
    F64.is_nan (cosine_similarity emb stored) = false.
Proof.
  unfold compare_faces. intros Hc.
  destruct (user_embeddings st !! uid) as [stored|]; [|discriminate].
  destruct (base64_to_image img) as [im|e]; [|discriminate].
  destruct (detect_and_extract_face im) as [[face_img|] [emb|]]; try discriminate.
  destruct thr as [t|]; [|discriminate].
  injection Hc as _ <-. exists emb, stored, t. repeat split.
  apply (le_not_nan_l _ F64.one), cosine_similarity_upper.
Qed.

(* ===================================================================== *)
(** ** The face extractor *)
(* ===================================================================== *)

(** The loop of [max] ends on an item that it has seen and that no item it
    has seen exceeds. *)
Lemma py_extremum_loop_max {A : Type} (key : A → float) (items seen : list A) (best : A) :
  best ∈ seen →
  (∀ g, g ∈ seen → F64.lt (key best) (key g) = false) →
  let r := py_extremum_loop (λ v b, F64.lt b v) key best items in
  r ∈ seen ++ items ∧
  (∀ g, g ∈ seen ++ items → F64.lt (key r) (key g) = false).
Proof.
  revert seen best. induction items as [|item rest IH]; intros seen best Hin Hmax; simpl.
  - rewrite app_nil_r. auto.
  - replace (seen ++ item :: rest) with ((seen ++ [item]) ++ rest)
      by now rewrite <- app_assoc.
    apply IH.
    + apply elem_of_app.
      destruct (F64.lt (key best) (key item));
        [right; now apply list_elem_of_singleton | now left].
    + intros g Hg. apply elem_of_app in Hg as [Hg|Hg%list_elem_of_singleton].
      * destruct (F64.lt (key best) (key item)) eqn:Hlt; [|now apply Hmax].
        destruct (F64.lt (key item) (key g)) eqn:Hig; [|reflexivity].
        rewrite <- (Hmax g Hg). symmetry. now apply lt_trans with (key item).
      * subst g. destruct (F64.lt (key best) (key item)) eqn:Hlt;
          [apply lt_irrefl | exact Hlt].
Qed.

(** What the extractor does keep: a face of the list whose key [x2 * y2] no
    other face of the list exceeds; there is none only for the empty list. *)
Lemma selected_face_maximises_key (faces : list Face) :
  match selected_face faces with
  | None => faces = []
  | Some face =>
      face ∈ faces ∧
      ∀ g, g ∈ faces → F64.lt (face_key face) (face_key g) = false
  end.
Proof.
  destruct faces as [|first rest]; simpl; [reflexivity|].
  apply (py_extremum_loop_max face_key rest [first] first).
  - set_solver.
  - intros g ->%list_elem_of_singleton. apply lt_irrefl.
Qed.

(** C1 (the code departs from it): of a face of 200 by 200 pixels and a face
    of 40 by 40 pixels further from the origin, the extractor keeps the small
    one: its key is [x2 * y2], the product of the far corner's coordinates,
    and not the area [(x2 - x1) * (y2 - y1)]. *)
Theorem selected_face_is_not_largest_area :
  spec_bbox_area (bbox Demo.near_face) = F64.of_Z 40000 ∧
  spec_bbox_area (bbox Demo.far_face) = F64.of_Z 1600 ∧
  F64.lt (spec_bbox_area (bbox Demo.far_face))
         (spec_bbox_area (bbox Demo.near_face)) = true ∧
  selected_face [Demo.near_face; Demo.far_face] = Some Demo.far_face ∧
  @detect_and_extract_face Demo.backend [Demo.near_face; Demo.far_face]
    = (Some [Demo.near_face; Demo.far_face], embedding Demo.far_face).
Proof. repeat split; vm_compute; reflexivity. Qed.

(* ===================================================================== *)
(** ** The store *)
(* ===================================================================== *)

Section Store.
Context `{Backend}.

Lemma save_user_data_maps (w : World) (st : State) :
  user_embeddings (save_user_data w st) = user_embeddings st ∧
  user_faces (save_user_data w st) = user_faces st.
Proof. unfold save_user_data. destruct (write w); split; reflexivity. Qed.

Lemma save_user_data_written (w : World) (st : State) :
  write w = WriteOk →
  user_data_pkl (save_user_data w st) = snapshot_of (save_user_data w st).
Proof. unfold save_user_data. intros ->. reflexivity. Qed.

Lemma save_user_data_invariant (w : World) (st : State) :
  same_keys st → snapshot_same_keys (user_data_pkl st) →
  same_keys (save_user_data w st) ∧
  snapshot_same_keys (user_data_pkl (save_user_data w st)).
Proof.
  unfold save_user_data. intros Hk Hs. destruct (write w); simpl; auto.
Qed.

Lemma register_face_invariant (w : World) (uid img : string) (st : State) :
  same_keys st → snapshot_same_keys (user_data_pkl st) →
  same_keys (register_face w uid img st).2 ∧
  snapshot_same_keys (user_data_pkl (register_face w uid img st).2).
Proof.
  intros Hk Hs. unfold register_face.
  destruct (base64_to_image img) as [im|e]; simpl; auto.
  destruct (detect_and_extract_face im) as [[face_img|] [emb|]]; simpl; auto.
  case_decide; simpl; auto.
  apply save_user_data_invariant; simpl; auto.
  unfold same_keys in *; simpl. rewrite !dom_insert_L. congruence.
Qed.

Lemma delete_user_invariant (w : World) (uid : string) (st : State) :
  same_keys st → snapshot_same_keys (user_data_pkl st) →
  same_keys (delete_user w uid st).2 ∧
  snapshot_same_keys (user_data_pkl (delete_user w uid st).2).
Proof.
  intros Hk Hs. unfold delete_user.
  destruct (decide (is_Some (user_embeddings st !! uid))) as [He|He]; simpl; auto.
  destruct (decide (is_Some (user_faces st !! uid))) as [Hf|Hf]; simpl.
  - apply save_user_data_invariant; simpl; auto.
    unfold same_keys in *; simpl. rewrite !dom_delete_L. congruence.
  - exfalso. apply Hf. apply elem_of_dom. unfold same_keys in Hk.
    rewrite <- Hk. now apply elem_of_dom.
Qed.

Lemma load_user_data_invariant (st : State) :
  same_keys st → snapshot_same_keys (user_data_pkl st) →
  same_keys (load_user_data st) ∧
  snapshot_same_keys (user_data_pkl (load_user_data st)).
Proof.
  intros Hk Hs. unfold load_user_data.
  destruct (user_data_pkl st) as [| |data] eqn:Hd; simpl.
  - rewrite Hd. auto.
  - rewrite Hd. auto.
  - split; exact Hs.
Qed.

Lemma save_user_data_same_keys (w : World) (st : State) :
  same_keys st → same_keys (save_user_data w st).
Proof. unfold save_user_data. intros Hk. now destruct (write w). Qed.

Lemma register_face_same_keys (w : World) (uid img : string) (st : State) :
  same_keys st → same_keys (register_face w uid img st).2.
Proof.
  intros Hk. unfold register_face.
  destruct (base64_to_image img) as [im|e]; simpl; auto.
  destruct (detect_and_extract_face im) as [[face_img|] [emb|]]; simpl; auto.
  case_decide; simpl; auto.
  apply save_user_data_same_keys.
  unfold same_keys in *; simpl. rewrite !dom_insert_L. congruence.
Qed.

Lemma delete_user_same_keys (w : World) (uid : string) (st : State) :
  same_keys st → same_keys (delete_user w uid st).2.
Proof.
  intros Hk. unfold delete_user.
  destruct (decide (is_Some (user_embeddings st !! uid))) as [He|He]; simpl; auto.
  destruct (decide (is_Some (user_faces st !! uid))) as [Hf|Hf]; simpl.
  - apply save_user_data_same_keys.
    unfold same_keys in *; simpl. rewrite !dom_delete_L. congruence.
  - exfalso. apply Hf. apply elem_of_dom. unfold same_keys in Hk.
    rewrite <- Hk. now apply elem_of_dom.
Qed.

Lemma exec_invariant (w : World) (op : Op) (st : State) :
  same_keys st → snapshot_same_keys (user_data_pkl st) →
  same_keys (exec w op st) ∧ snapshot_same_keys (user_data_pkl (exec w op st)).
Proof.
  intros Hk Hs. destruct op; simpl; auto.
  - now apply register_face_invariant.
  - now apply delete_user_invariant.
  - now apply load_user_data_invariant.
Qed.

(** The invariant holds along every history of calls of an instance started
    on a snapshot that is absent, not loadable, or has the same keys in its
    two dictionaries. *)
Lemma run_invariant (calls : list (World * Op)) (st : State) :
  same_keys st → snapshot_same_keys (user_data_pkl st) →
  same_keys (run calls st).
Proof.
  revert st. induction calls as [|[w op] calls IH]; intros st Hk Hs; simpl.
  - exact Hk.
  - destruct (exec_invariant w op st Hk Hs) as [Hk' Hs']. now apply IH.
Qed.

Lemma init_invariant (disk : File) :
  snapshot_same_keys disk →
  same_keys (init disk) ∧ snapshot_same_keys (user_data_pkl (init disk)).
Proof.
  intros Hs. apply load_user_data_invariant; [reflexivity | exact Hs].
Qed.

End Store.

Section Service.
Context `{Backend}.

(** C5, as amended: when the user id is already a key of [user_embeddings],
    [register_face] fails whatever the image is and leaves the instance and
    its snapshot as they were, so no record is overwritten; when moreover the
    image decodes and a face with an embedding is found on it, the failure is
    the one of an existing user. *)
Theorem register_face_existing_user (w : World) (uid img : string) (st : State) :
  is_Some (user_embeddings st !! uid) →
  (register_face w uid img st).2 = st ∧
  success (register_face w uid img st).1 = false ∧
  (∀ im face_img emb,
     base64_to_image img = Return im →
     detect_and_extract_face im = (Some face_img, Some emb) →
     (register_face w uid img st).1 = Failure MsgUserExists).
Proof.
  intros Hin. unfold register_face.
  destruct (base64_to_image img) as [im|e].
  - destruct (detect_and_extract_face im) as [[face_img|] [emb|]] eqn:Hd.
    + rewrite decide_True by exact Hin. repeat split.
    + repeat split. intros ? ? ? [= <-]. rewrite Hd. discriminate.
    + repeat split. intros ? ? ? [= <-]. rewrite Hd. discriminate.
    + repeat split. intros ? ? ? [= <-]. rewrite Hd. discriminate.
  - repeat split. discriminate.
Qed.

(** C6: when the user id is not a key of [user_embeddings], [delete_user]
    answers that the user does not exist and leaves the two dictionaries and
    the snapshot exactly as they were. *)
Theorem delete_user_missing (w : World) (uid : string) (st : State) :
  user_embeddings st !! uid = None →
  delete_user w uid st = (Failure MsgUserMissing, st).
Proof.
  intros Hnone. unfold delete_user.
  rewrite decide_False; [reflexivity|].
  rewrite Hnone. apply is_Some_None.
Qed.

(** C8: when the write of the snapshot succeeds, every [register_face] and
    every [delete_user] that reports success returns with the snapshot on
    disk equal to the two dictionaries of the instance as the call leaves
    them: [save_user_data] ran inside the call, after the mutation. *)
Theorem mutation_persisted (w : World) (st : State) :
  write w = WriteOk →
  (∀ uid img,
     success (register_face w uid img st).1 = true →
     user_data_pkl (register_face w uid img st).2
       = snapshot_of (register_face w uid img st).2) ∧
  (∀ uid,
     success (delete_user w uid st).1 = true →
     user_data_pkl (delete_user w uid st).2
       = snapshot_of (delete_user w uid st).2).
Proof.
  intros Hw. split.
  - intros uid img. unfold register_face.
    destruct (base64_to_image img) as [im|e]; [|discriminate].
    destruct (detect_and_extract_face im) as [[face_img|] [emb|]]; try discriminate.
    case_decide; [discriminate|]. intros _. simpl.
    now apply save_user_data_written.
  - intros uid. unfold delete_user.
    case_decide; [|discriminate]. case_decide; [|discriminate]. intros _. simpl.
    now apply save_user_data_written.
Qed.

(** C9: a snapshot written by [save_user_data] and loaded by a fresh instance
    gives that instance the same [user_embeddings] and the same [user_faces]:
    the same keys, each with the same embedding and the same record. *)
Theorem save_then_load_roundtrip (t : string) (st : State) :
  let saved := save_user_data {| now := t; write := WriteOk |} st in
  let fresh := init (user_data_pkl saved) in
  user_embeddings fresh = user_embeddings st ∧
  user_faces fresh = user_faces st ∧
  dom (user_embeddings fresh) = dom (user_embeddings st) ∧
  (∀ uid, user_embeddings fresh !! uid = user_embeddings st !! uid).
Proof. simpl. repeat split. Qed.

(** C10, as amended: from an instance whose two dictionaries have the same
    keys, each of register, compare, delete, get and list leads to an
    instance of which the same holds; so does load when the snapshot it
    reads is absent, not loadable, or has the same keys in its two
    dictionaries, and every operation then leaves such a snapshot behind. *)
Theorem operations_keep_same_keys (w : World) (op : Op) (st : State) :
  same_keys st →
  (op ≠ OpLoad →
     dom (user_embeddings (exec w op st)) = dom (user_faces (exec w op st))) ∧
  (snapshot_same_keys (user_data_pkl st) →
     dom (user_embeddings (exec w op st)) = dom (user_faces (exec w op st)) ∧
     snapshot_same_keys (user_data_pkl (exec w op st))).
Proof.
  intros Hk. split.
  - intros Hop. destruct op; simpl; try exact Hk.
    + now apply register_face_same_keys.
    + now apply delete_user_same_keys.
    + now destruct Hop.
  - intros Hs. now apply exec_invariant.
Qed.

(** The two lists the loop builds are the successes and the failures of the
    payloads' outcomes, in order, after what was built before. *)
Lemma batch_loop_outcomes (st : State) (uid : string) (thr : option float)
    (items : list string) (i : nat) (rs : list BatchResult) (es : list BatchError) :
  let outcomes :=
    map (λ p, (p.1, compare_faces uid p.2 thr st)) (enumerate_from i items) in
  batch_loop st uid thr i items rs es
    = (rs ++ omap outcome_result outcomes, es ++ omap outcome_error outcomes).
Proof.
  revert i rs es. induction items as [|image_data rest IH]; intros i rs es; simpl.
  - now rewrite !app_nil_r.
  - unfold outcome_result at 1, outcome_error at 1; simpl.
    destruct (compare_faces uid image_data thr st) as [m d|m]; simpl;
      rewrite IH; simpl; now rewrite <- app_assoc.
Qed.

(** Every outcome is a success or a failure, never both. *)
Lemma outcomes_partition (os : list (nat * Result CompareData)) :
  length (omap outcome_result os) + length (omap outcome_error os) = length os.
Proof.
  induction os as [|[i [m d|m]] os IH]; [reflexivity|..];
    unfold omap in *; simpl; lia.
Qed.

Lemma length_enumerate_from {A : Type} (i : nat) (l : list A) :
  length (enumerate_from i l) = length l.
Proof. revert i. induction l as [|x l IH]; intros i; simpl; [reflexivity|now rewrite IH]. Qed.

(** C7: on a ready service the batch call answers with a success whatever
    the payloads are. Its [results] are the successful comparisons and its
    [errors] the failed ones, each payload compared on its own by
    [compare_faces], both lists in input order and every entry tagged with
    the position of its payload; the two counts add up to the number of
    payloads. *)
Theorem face_compare_batch_spec (st : State) (request : FaceCompareBatchRequest) :
  let outcomes := spec_batch_outcomes st request in
  face_compare_batch (Some st) request
    = Response (Success MsgBatchDone
        {| results := omap outcome_result outcomes;
           errors := omap outcome_error outcomes;
           total := length (imageDataList request);
           successCount := length (omap outcome_result outcomes);
           errorCount := length (omap outcome_error outcomes) |}) ∧
  length (omap outcome_result outcomes) + length (omap outcome_error outcomes)
    = length (imageDataList request).
Proof.
  simpl. split.
  - unfold face_compare_batch. rewrite batch_loop_outcomes. reflexivity.
  - rewrite outcomes_partition. unfold spec_batch_outcomes.
    now rewrite length_map, length_enumerate_from.
Qed.

End Service.

(* ===================================================================== *)
(** ** The operations run on the small backend *)
(* ===================================================================== *)

(** "alice" is registered; a second registration of "alice" with a picture
    without a face is answered with the failure of a missing face, not with
    the one of an existing user. *)
Lemma register_face_existing_user_no_face :
  is_Some (user_embeddings Demo.alice_state !! "alice") ∧
  (@register_face Demo.backend Demo.world "alice" "landscape" Demo.alice_state).1
    = Failure MsgNoFace ∧
  (@register_face Demo.backend Demo.world "alice" "landscape" Demo.alice_state).1
    ≠ Failure MsgUserExists.
Proof.
  split; [|split].
  - eexists. vm_compute. reflexivity.
  - vm_compute. reflexivity.
  - vm_compute. discriminate.
Qed.

Lemma register_face_existing_user_witness :
  (@register_face Demo.backend Demo.world "alice" "portrait" Demo.alice_state).2
    = Demo.alice_state ∧
  success (@register_face Demo.backend Demo.world "alice" "portrait" Demo.alice_state).1
    = false ∧
  (@register_face Demo.backend Demo.world "alice" "portrait" Demo.alice_state).1
    = Failure MsgUserExists.
Proof.
  assert (Hin : is_Some (user_embeddings Demo.alice_state !! "alice"))
    by (eexists; vm_compute; reflexivity).
  destruct (@register_face_existing_user Demo.backend Demo.world
              "alice" "portrait" Demo.alice_state Hin) as (Hst & Hfail & Hmsg).
  split; [exact Hst|]. split; [exact Hfail|].
  apply (Hmsg [Demo.near_face] [Demo.near_face] [F64.one; F64.zero]); reflexivity.
Defined.

Lemma delete_user_missing_witness :
  @delete_user Demo.backend Demo.world "bob" Demo.alice_state
    = (Failure MsgUserMissing, Demo.alice_state).
Proof.
  apply (@delete_user_missing Demo.backend Demo.world "bob" Demo.alice_state).
  vm_compute. reflexivity.
Defined.

Lemma mutation_persisted_witness :
  user_data_pkl
    (@register_face Demo.backend Demo.world "alice" "portrait" Demo.empty_state).2
    = snapshot_of
        (@register_face Demo.backend Demo.world "alice" "portrait" Demo.empty_state).2 ∧
  user_data_pkl (@delete_user Demo.backend Demo.world "alice" Demo.alice_state).2
    = snapshot_of (@delete_user Demo.backend Demo.world "alice" Demo.alice_state).2.
Proof.
  split.
  - apply (proj1 (@mutation_persisted Demo.backend Demo.world Demo.empty_state eq_refl)).
    vm_compute. reflexivity.
  - apply (proj2 (@mutation_persisted Demo.backend Demo.world Demo.alice_state eq_refl)).
    vm_compute. reflexivity.
Defined.

Lemma operations_keep_same_keys_witness :
  dom (user_embeddings (@exec Demo.backend Demo.world OpLoad Demo.alice_state))
    = dom (user_faces (@exec Demo.backend Demo.world OpLoad Demo.alice_state)) ∧
  snapshot_same_keys
    (user_data_pkl (@exec Demo.backend Demo.world OpLoad Demo.alice_state)).
Proof.
  apply (@operations_keep_same_keys Demo.backend Demo.world OpLoad Demo.alice_state).
  - vm_compute. reflexivity.
  - vm_compute. reflexivity.
Defined.

(** Loading a snapshot that has embeddings and no faces into an instance
    whose two dictionaries agree leaves them with different keys. *)
Lemma load_partial_snapshot_splits_keys :
  same_keys Demo.unloaded_state ∧
  dom (user_embeddings (@exec Demo.backend Demo.world OpLoad Demo.unloaded_state))
    ≠ dom (user_faces (@exec Demo.backend Demo.world OpLoad Demo.unloaded_state)).
Proof.
  split; [reflexivity|]. simpl. intros Heq.
  assert (Hin : "alice" ∈ dom (∅ : gmap string (@FaceInfo Demo.backend)))
    by (rewrite <- Heq; apply elem_of_dom; eexists; vm_compute; reflexivity).
  set_solver.
Qed.

(** Of two faces with the same key the first returned is kept. *)
Example selected_face_tie_keeps_first :
  face_key Demo.near_face = face_key Demo.twin_face ∧
  selected_face [Demo.near_face; Demo.twin_face] = Some Demo.near_face ∧
  selected_face [Demo.twin_face; Demo.near_face] = Some Demo.twin_face.
Proof. repeat split; vm_compute; reflexivity. Qed.

(** The scenario of a registered user compared with a picture of her and with
    a picture without a face: one result at position 0, one error at
    position 1. *)
Example batch_one_success_one_failure :
  @face_compare_batch Demo.backend (Some Demo.alice_state)
    {| imageDataList := ["portrait"; "landscape"];
       userId := "alice";
       req_threshold := Some F64.c0_6 |}
  = Response (Success MsgBatchDone
      {| results := [ {| br_index := 0;
                         br_data := {| similarity := F64.one; isMatch := true;
                                       confidence := F64.one;
                                       threshold := F64.c0_6 |} |} ];
         errors := [ {| be_index := 1; be_error := MsgNoFace |} ];
         total := 2; successCount := 1; errorCount := 1 |}).
Proof. vm_compute. reflexivity. Qed.

(** A batch for a user that is not registered: every item fails, the call
    succeeds. *)
Example batch_every_item_fails :
  @face_compare_batch Demo.backend (Some Demo.alice_state)
    {| imageDataList := ["portrait"; "group"; "noise"];
       userId := "bob";
       req_threshold := Some F64.c0_6 |}
  = Response (Success MsgBatchDone
      {| results := [];
         errors := [ {| be_index := 0; be_error := MsgUserMissingRegister |};
                     {| be_index := 1; be_error := MsgUserMissingRegister |};
                     {| be_index := 2; be_error := MsgUserMissingRegister |} ];
         total := 3; successCount := 0; errorCount := 3 |}).
Proof. vm_compute. reflexivity. Qed.

(* ===================================================================== *)
(** ** More on the order of binary64 numbers *)
(* ===================================================================== *)

Lemma le_trans (x y z : float) :
  F64.le x y = true → F64.le y z = true → F64.le x z = true.
Proof.
  unfold F64.le, SFleb.
  destruct x as [sx|sx| |sx mx ex], y as [sy|sy| |sy my ey], z as [sz|sz| |sz mz ez];
    simpl; try discriminate; try reflexivity;
    destruct sx; try discriminate; try reflexivity;
    destruct sy; try discriminate; try reflexivity;
    destruct sz; try discriminate; try reflexivity;
    change (Pos.compare_cont Eq) with Pos.compare;
    destruct (Z.compare_spec ex ey), (Z.compare_spec ey ez), (Z.compare_spec ex ez);
    try discriminate; try reflexivity; try lia;
    destruct (Pos.compare_spec mx my), (Pos.compare_spec my mz),
             (Pos.compare_spec mx mz);
    simpl; try discriminate; try reflexivity; lia.
Qed.

Lemma le_lt_trans (x y z : float) :
  F64.le x y = true → F64.lt y z = true → F64.lt x z = true.
Proof.
  unfold F64.le, F64.lt, SFleb, SFltb.
  destruct x as [sx|sx| |sx mx ex], y as [sy|sy| |sy my ey], z as [sz|sz| |sz mz ez];
    simpl; try discriminate; try reflexivity;
    destruct sx; try discriminate; try reflexivity;
    destruct sy; try discriminate; try reflexivity;
    destruct sz; try discriminate; try reflexivity;
    change (Pos.compare_cont Eq) with Pos.compare;
    destruct (Z.compare_spec ex ey), (Z.compare_spec ey ez), (Z.compare_spec ex ez);
    try discriminate; try reflexivity; try lia;
    destruct (Pos.compare_spec mx my), (Pos.compare_spec my mz),
             (Pos.compare_spec mx mz);
    simpl; try discriminate; try reflexivity; lia.
Qed.

Lemma lt_not_le (x y : float) : F64.lt x y = true → F64.le y x = false.
Proof.
  unfold F64.lt, F64.le, SFltb, SFleb. rewrite (SFcompare_swap x y).
  destruct (SFcompare x y) as [[]|]; simpl; congruence.
Qed.

Lemma le_not_nan_r (x y : float) : F64.le x y = true → F64.is_nan y = false.
Proof. destruct x, y; simpl; try reflexivity; discriminate. Qed.

Lemma lt_not_nan (x y : float) :
  F64.lt x y = true → F64.is_nan x = false ∧ F64.is_nan y = false.
Proof. intros H%lt_le. eauto using le_not_nan_l, le_not_nan_r. Qed.

(** On numbers, [y] is at most [x] as soon as [x < y] fails. *)
Lemma not_lt_le (x y : float) :
  F64.is_nan x = false → F64.is_nan y = false →
  F64.lt x y = false → F64.le y x = true.
Proof.
  intros Hx Hy. rewrite (lt_swap_le y x Hy Hx). now destruct (F64.le y x).
Qed.

(* ===================================================================== *)
(** ** More on the face extractor *)
(* ===================================================================== *)

(** The loop of [max] over keys that are numbers: the item it ends on splits
    what it has seen into items with a strictly smaller key before it and
    items whose key does not exceed its own after it. *)
Lemma py_extremum_loop_first_max {A : Type} (key : A → float)
    (items pre post : list A) (best : A) :
  (∀ g, g ∈ pre ++ best :: post ++ items → F64.is_nan (key g) = false) →
  (∀ g, g ∈ pre → F64.lt (key g) (key best) = true) →
  (∀ g, g ∈ post → F64.lt (key best) (key g) = false) →
  ∃ pre' post',
    pre ++ best :: post ++ items
      = pre' ++ py_extremum_loop (λ v b, F64.lt b v) key best items :: post' ∧
    (∀ g, g ∈ pre' →
       F64.lt (key g) (key (py_extremum_loop (λ v b, F64.lt b v) key best items)) = true) ∧
    (∀ g, g ∈ post' →
       F64.lt (key (py_extremum_loop (λ v b, F64.lt b v) key best items)) (key g) = false).
Proof.
  revert pre post best.
  induction items as [|item rest IH]; intros pre post best Hnum Hpre Hpost; simpl.
  - exists pre, post. rewrite app_nil_r. auto.
  - destruct (F64.lt (key best) (key item)) eqn:Hlt.
    + destruct (IH (pre ++ best :: post) [] item) as (pre' & post' & Heq & H1 & H2).
      * intros g Hg. apply Hnum. rewrite <- app_assoc in Hg. exact Hg.
      * intros g Hg. apply elem_of_app in Hg as [Hg|Hg].
        { apply lt_trans with (key best); auto. }
        apply elem_of_cons in Hg as [->|Hg]; [exact Hlt|].
        apply le_lt_trans with (key best); [|exact Hlt].
        apply not_lt_le; [| |now apply Hpost].
        { apply Hnum. set_solver. }
        { apply Hnum. set_solver. }
      * intros g Hg. now apply elem_of_nil in Hg.
      * exists pre', post'. split; [|auto].
        rewrite <- Heq. now rewrite <- app_assoc.
    + destruct (IH pre (post ++ [item]) best) as (pre' & post' & Heq & H1 & H2).
      * intros g Hg. apply Hnum. rewrite <- app_assoc in Hg. exact Hg.
      * exact Hpre.
      * intros g Hg. apply elem_of_app in Hg as [Hg|Hg%list_elem_of_singleton];
          [now apply Hpost | now subst g].
      * exists pre', post'. split; [|auto].
        rewrite <- Heq. now rewrite <- app_assoc.
Qed.

(** X2: when no key [x2 * y2] is a NaN, the face kept by the extractor is
    the first of the faces with the largest key: every face returned before
    it has a strictly smaller key, and no face returned after it has a
    larger one. *)
Theorem selected_face_first_maximal (faces : list Face) (face : Face) :
  keys_are_numbers faces →
  selected_face faces = Some face →
  ∃ pre post,
    faces = pre ++ face :: post ∧
    (∀ g, g ∈ pre → F64.lt (face_key g) (face_key face) = true) ∧
    (∀ g, g ∈ post → F64.lt (face_key face) (face_key g) = false).
Proof.
  intros Hnum Hsel. destruct faces as [|first rest]; [discriminate|].
  injection Hsel as <-.
  apply (py_extremum_loop_first_max face_key rest [] [] first).
  - exact Hnum.
  - intros g Hg. now apply elem_of_nil in Hg.
  - intros g Hg. now apply elem_of_nil in Hg.
Qed.

Lemma selected_face_first_maximal_witness :
  ∃ pre post,
    [Demo.near_face; Demo.twin_face; Demo.far_face; Demo.twin_face]
      = pre ++ Demo.far_face :: post ∧
    (∀ g, g ∈ pre → F64.lt (face_key g) (face_key Demo.far_face) = true) ∧
    (∀ g, g ∈ post → F64.lt (face_key Demo.far_face) (face_key g) = false).
Proof.
  apply (selected_face_first_maximal
           [Demo.near_face; Demo.twin_face; Demo.far_face; Demo.twin_face]
           Demo.far_face).
  - intros g Hg.
    repeat (apply elem_of_cons in Hg as [->|Hg]; [vm_compute; reflexivity|]).
    now apply elem_of_nil in Hg.
  - vm_compute. reflexivity.
Defined.

Section Extractor.
Context `{Backend}.

(** X3: the extractor returns no face image exactly when the model call
    raises or returns no face, and it then returns no embedding either. *)
Theorem detect_and_extract_face_none (img : image) :
  ((detect_and_extract_face img).1 = None ↔
     (∃ e, app_get img = Raise e) ∨ app_get img = Return []) ∧
  ((detect_and_extract_face img).1 = None →
     (detect_and_extract_face img).2 = None).
Proof.
  unfold detect_and_extract_face.
  destruct (app_get img) as [[|first rest]|e]; simpl.
  - split; [|reflexivity]. split; [now right | reflexivity].
  - split; [|discriminate]. split; [discriminate|].
    intros [[e He]|He]; discriminate.
  - split; [|reflexivity]. split; [left; eauto | reflexivity].
Qed.

(** X4: a face image and an embedding returned together are the crop of the
    image along the box of one of the faces the model returned, and that
    very face's embedding. *)
Theorem detect_and_extract_face_some (img face_img : image) (emb : vector) :
  detect_and_extract_face img = (Some face_img, Some emb) →
  ∃ faces face,
    app_get img = Return faces ∧ face ∈ faces ∧
    selected_face faces = Some face ∧
    face_img = crop img (bbox face) ∧ embedding face = Some emb.
Proof.
  unfold detect_and_extract_face.
  destruct (app_get img) as [faces|e]; [|discriminate].
  pose proof (selected_face_maximises_key faces) as Hmax.
  destruct (selected_face faces) as [face|] eqn:Hsel; [|discriminate].
  intros [= <- Hemb]. exists faces, face. destruct Hmax as [Hin _].
  repeat split; auto.
Qed.

End Extractor.

Lemma detect_and_extract_face_some_witness :
  ∃ faces face,
    @app_get Demo.backend [Demo.near_face; Demo.far_face] = Return faces ∧
    face ∈ faces ∧ selected_face faces = Some face ∧
    [Demo.near_face; Demo.far_face]
      = @crop Demo.backend [Demo.near_face; Demo.far_face] (bbox face) ∧
    embedding face = Some [F64.zero; F64.one].
Proof.
  apply (@detect_and_extract_face_some Demo.backend
           [Demo.near_face; Demo.far_face] [Demo.near_face; Demo.far_face]
           [F64.zero; F64.one]).
  vm_compute. reflexivity.
Defined.

(** X1: for every list of faces, the extractor keeps none only when the list
    is empty; the face it keeps is one of the list, and no face of the list
    has a key [x2 * y2] above its own. *)
Theorem selected_face_unexceeded (faces : list Face) :
  (selected_face faces = None ↔ faces = []) ∧
  (∀ face, selected_face faces = Some face →
     face ∈ faces ∧
     ∀ g, g ∈ faces → F64.lt (face_key face) (face_key g) = false).
Proof.
  split.
  - destruct faces; simpl; split; congruence.
  - intros face Hsel. destruct faces as [|first rest]; [discriminate|].
    injection Hsel as <-.
    apply (py_extremum_loop_max face_key rest [first] first).
    + now apply list_elem_of_singleton.
    + intros g ->%list_elem_of_singleton. apply lt_irrefl.
Qed.

(* ===================================================================== *)
(** ** The image decoder *)
(* ===================================================================== *)

Lemma append_String (a : ascii) (s t : string) :
  String a s +:+ t = String a (s +:+ t).
Proof. reflexivity. Qed.

Lemma py_split_not_nil (sep : ascii) (s : string) : py_split sep s ≠ [].
Proof.
  destruct s as [|a s]; simpl; [discriminate|].
  destruct (Ascii.eqb a sep); [discriminate|].
  destruct (py_split sep s); discriminate.
Qed.

(** Without the separator there is one piece, the string itself. *)
Lemma py_split_no_sep (sep : ascii) (s : string) :
  contains_char sep s = false → py_split sep s = [s].
Proof.
  induction s as [|a s IH]; simpl; [reflexivity|].
  destruct (Ascii.eqb a sep); [discriminate|]. intros Hs. now rewrite IH.
Qed.

(** The first piece ends at the first separator. *)
Lemma py_split_app_sep (sep : ascii) (p t : string) :
  contains_char sep p = false →
  py_split sep (p +:+ String sep t) = p :: py_split sep t.
Proof.
  induction p as [|a p IH]; simpl.
  - intros _. change (EmptyString +:+ String sep t) with (String sep t).
    simpl. now rewrite Ascii.eqb_refl.
  - destruct (Ascii.eqb a sep) eqn:Ha; [discriminate|]. intros Hp.
    rewrite ?append_String; simpl; rewrite ?Ha. now rewrite IH by exact Hp.
Qed.

Lemma contains_char_app_sep (sep : ascii) (p t : string) :
  contains_char sep (p +:+ String sep t) = true.
Proof.
  induction p as [|a p IH].
  - change (EmptyString +:+ String sep t) with (String sep t).
    simpl. now rewrite Ascii.eqb_refl.
  - rewrite ?append_String; simpl. now destruct (Ascii.eqb a sep).
Qed.

(** No piece holds the separator. *)
Lemma py_split_pieces (sep : ascii) (s piece : string) :
  piece ∈ py_split sep s → contains_char sep piece = false.
Proof.
  revert piece. induction s as [|a s IH]; intros piece; simpl.
  - now intros ->%list_elem_of_singleton.
  - destruct (Ascii.eqb a sep) eqn:Ha.
    + intros [->|Hin]%elem_of_cons; [reflexivity | now apply IH].
    + destruct (py_split sep s) as [|first rest] eqn:Hsp.
      * intros ->%list_elem_of_singleton. simpl. rewrite Ha.
        now destruct (py_split_not_nil sep s).
      * intros [->|Hin]%elem_of_cons.
        { simpl. rewrite Ha. apply IH. now left. }
        apply IH. now right.
Qed.

(** With the separator there are two pieces at least. *)
Lemma py_split_two (sep : ascii) (s : string) :
  contains_char sep s = true →
  ∃ first second rest, py_split sep s = first :: second :: rest.
Proof.
  induction s as [|a s IH]; simpl; [discriminate|].
  destruct (Ascii.eqb a sep).
  - intros _. destruct (py_split sep s) as [|second rest] eqn:Hsp;
      [now destruct (py_split_not_nil sep s) | eauto].
  - intros Hs. destruct (IH Hs) as (first & second & rest & ->). eauto.
Qed.

(** X5: the head of [base64_to_image] never fails, and what it hands to the
    base64 decoder never holds a comma. *)
Theorem data_uri_payload_no_comma (base64_data : string) :
  ∃ payload,
    data_uri_payload base64_data = Return payload ∧
    contains_char "," payload = false.
Proof.
  unfold data_uri_payload.
  destruct (contains_char "," base64_data) eqn:Hc; [|eauto].
  destruct (py_split_two _ _ Hc) as (first & second & rest & Hsp).
  rewrite Hsp. exists second. split; [reflexivity|].
  apply (py_split_pieces "," base64_data). rewrite Hsp. set_solver.
Qed.

Lemma data_uri_payload_body_aux (prefix body : string) :
  contains_char "," prefix = false →
  contains_char "," body = false →
  data_uri_payload (prefix +:+ "," +:+ body) = Return body ∧
  ∀ rest, data_uri_payload (prefix +:+ "," +:+ body +:+ "," +:+ rest) = Return body.
Proof.
  intros Hp Hb. unfold data_uri_payload. split.
  - change ("," +:+ body) with (String "," body).
    rewrite contains_char_app_sep, py_split_app_sep by exact Hp.
    now rewrite py_split_no_sep by exact Hb.
  - intros rest.
    change ("," +:+ body +:+ "," +:+ rest) with (String "," (body +:+ String "," rest)).
    rewrite contains_char_app_sep, py_split_app_sep by exact Hp.
    now rewrite py_split_app_sep by exact Hb.
Qed.

(** X6: a payload [prefix,body] with no comma in the prefix and none in the
    body is cut down to the body; when a second comma follows the body, it
    and whatever comes after it are dropped as well. *)
Theorem data_uri_payload_body (prefix body rest : string) :
  contains_char "," prefix = false →
  contains_char "," body = false →
  data_uri_payload (prefix +:+ "," +:+ body) = Return body ∧
  data_uri_payload (prefix +:+ "," +:+ body +:+ "," +:+ rest) = Return body.
Proof.
  intros Hp Hb. destruct (data_uri_payload_body_aux prefix body Hp Hb) as [H1 H2].
  split; [exact H1 | apply H2].
Qed.

Lemma data_uri_payload_body_witness :
  data_uri_payload ("data:image/jpeg;base64" +:+ "," +:+ "QUJD") = Return "QUJD" ∧
  data_uri_payload ("data:image/jpeg;base64" +:+ "," +:+ "QUJD" +:+ "," +:+ "tail")
    = Return "QUJD".
Proof.
  apply (data_uri_payload_body "data:image/jpeg;base64" "QUJD" "tail"); reflexivity.
Defined.

(** X7: with [base64_to_image] as the repository writes it, a payload with a
    data-URI prefix is decoded, registered and compared exactly as the bare
    payload is. *)
Theorem data_uri_prefix_ignored {I : Type} (decode_pixels : string → py I)
    (get : I → py (list Face)) (slice : I → BBox → I) (dims : I → list nat)
    (dtype : Dtype) (prefix body : string) :
  contains_char "," prefix = false →
  contains_char "," body = false →
  let B := decoder_backend decode_pixels get slice dims dtype in
  base64_to_image_body decode_pixels (prefix +:+ "," +:+ body)
    = base64_to_image_body decode_pixels body ∧
  (∀ w uid st,
     @register_face B w uid (prefix +:+ "," +:+ body) st
       = @register_face B w uid body st) ∧
  (∀ uid thr st,
     @compare_faces B uid (prefix +:+ "," +:+ body) thr st
       = @compare_faces B uid body thr st).
Proof.
  intros Hp Hb B.
  assert (Heq : base64_to_image_body decode_pixels (prefix +:+ "," +:+ body)
                = base64_to_image_body decode_pixels body).
  { unfold base64_to_image_body.
    rewrite (proj1 (data_uri_payload_body_aux prefix body Hp Hb)).
    unfold data_uri_payload. now rewrite Hb. }
  split; [exact Heq|]. split.
  - intros w uid st. unfold register_face. simpl. now rewrite Heq.
  - intros uid thr st. unfold compare_faces. simpl. now rewrite Heq.
Qed.

Lemma data_uri_prefix_ignored_witness :
  base64_to_image_body Sample.decode_pixels ("data:image/jpeg;base64" +:+ "," +:+ "portrait")
    = base64_to_image_body Sample.decode_pixels "portrait" ∧
  (∀ w uid st,
     @register_face Sample.backend w uid ("data:image/jpeg;base64" +:+ "," +:+ "portrait") st
       = @register_face Sample.backend w uid "portrait" st) ∧
  (∀ uid thr st,
     @compare_faces Sample.backend uid ("data:image/jpeg;base64" +:+ "," +:+ "portrait") thr st
       = @compare_faces Sample.backend uid "portrait" thr st).
Proof.
  apply (data_uri_prefix_ignored Sample.decode_pixels (λ img, Return img)
           (λ img _, img) (λ _, [200; 200; 3]%nat) Float32
           "data:image/jpeg;base64" "portrait"); reflexivity.
Defined.

(* ===================================================================== *)
(** ** More on registration and deletion *)
(* ===================================================================== *)

Section Registration.
Context `{Backend}.

(** A registration either fails and changes nothing, or it is the one of a
    new user with a decoded image and a detected face. *)
Lemma register_face_cases (w : World) (uid img : string) (st : State) :
  (success (register_face w uid img st).1 = false ∧
   (register_face w uid img st).2 = st) ∨
  (∃ im face_img emb,
     base64_to_image img = Return im ∧
     detect_and_extract_face im = (Some face_img, Some emb) ∧
     user_embeddings st !! uid = None ∧
     register_face w uid img st
       = (Success MsgRegistered
            {| rd_userId := uid; rd_faceData := "registered";
               rd_faceCount := S (size (user_embeddings st)) |},
          save_user_data w
            {| user_embeddings := <[uid := emb]> (user_embeddings st);
               user_faces :=
                 <[uid := {| face_image := face_img; created_at := now w;
                             image_size := shape face_img |}]> (user_faces st);
               user_data_pkl := user_data_pkl st |})).
Proof.
  unfold register_face.
  destruct (base64_to_image img) as [im|e]; [|now left].
  destruct (detect_and_extract_face im) as [[face_img|] [emb|]] eqn:Hdet;
    try now left.
  case_decide as Hin; [now left|]. right.
  assert (Hnone : user_embeddings st !! uid = None).
  { destruct (user_embeddings st !! uid) eqn:E; [|reflexivity].
    destruct Hin. eauto. }
  exists im, face_img, emb. repeat split; auto.
  rewrite (proj1 (save_user_data_maps _ _)). simpl.
  now rewrite map_size_insert_None.
Qed.

(** X8: registering a user whose id is not in [user_embeddings], with an
    image that decodes and shows a face with an embedding, succeeds whatever
    the write of the snapshot does; the count it reports is one more than
    the number of users before, the user's embedding and record are the ones
    just extracted, stamped with the time of the call, and the entries of
    every other user are as they were. *)
Theorem register_face_new_user (w : World) (uid img : string) (st : State)
    (im face_img : image) (emb : vector) :
  user_embeddings st !! uid = None →
  base64_to_image img = Return im →
  detect_and_extract_face im = (Some face_img, Some emb) →
  let st' := (register_face w uid img st).2 in
  (register_face w uid img st).1
    = Success MsgRegistered
        {| rd_userId := uid; rd_faceData := "registered";
           rd_faceCount := S (size (user_embeddings st)) |} ∧
  user_embeddings st' !! uid = Some emb ∧
  user_faces st' !! uid
    = Some {| face_image := face_img; created_at := now w;
              image_size := shape face_img |} ∧
  (∀ other, other ≠ uid →
     user_embeddings st' !! other = user_embeddings st !! other ∧
     user_faces st' !! other = user_faces st !! other).
Proof.
  intros Hnew Him Hdet.
  destruct (register_face_cases w uid img st) as [[Hfail _]|Hok].
  - exfalso. revert Hfail. unfold register_face. rewrite Him, Hdet.
    rewrite decide_False by (rewrite Hnew; apply is_Some_None). discriminate.
  - destruct Hok as (im' & face_img' & emb' & Him' & Hdet' & _ & ->).
    rewrite Him in Him'. injection Him' as <-.
    rewrite Hdet in Hdet'. injection Hdet' as <- <-.
    simpl. destruct (save_user_data_maps w
      {| user_embeddings := <[uid := emb]> (user_embeddings st);
         user_faces := <[uid := {| face_image := face_img; created_at := now w;
                                   image_size := shape face_img |}]> (user_faces st);
         user_data_pkl := user_data_pkl st |}) as [-> ->]. simpl.
    repeat split.
    + apply lookup_insert_eq.
    + apply lookup_insert_eq.
    + now apply lookup_insert_ne.
    + now apply lookup_insert_ne.
Qed.

(** X9: a registration that reports a failure has changed nothing: the two
    dictionaries and the snapshot are the ones before the call. *)
Theorem register_face_failure_unchanged (w : World) (uid img : string) (st : State) :
  success (register_face w uid img st).1 = false →
  (register_face w uid img st).2 = st.
Proof.
  intros Hfail.
  destruct (register_face_cases w uid img st) as [[_ Hst]|Hok]; [exact Hst|].
  destruct Hok as (? & ? & ? & _ & _ & _ & Heq). rewrite Heq in Hfail. discriminate.
Qed.

(** X10: what a registration or a deletion answers, and the two dictionaries
    it leaves in memory, do not depend on whether the snapshot could be
    written: a failed write is not reported and nothing is rolled back. *)
Theorem write_outcome_not_observed (t : string) (o1 o2 : WriteOutcome)
    (uid img : string) (st : State) :
  let w1 := {| now := t; write := o1 |} in
  let w2 := {| now := t; write := o2 |} in
  (register_face w1 uid img st).1 = (register_face w2 uid img st).1 ∧
  user_embeddings (register_face w1 uid img st).2
    = user_embeddings (register_face w2 uid img st).2 ∧
  user_faces (register_face w1 uid img st).2
    = user_faces (register_face w2 uid img st).2 ∧
  (delete_user w1 uid st).1 = (delete_user w2 uid st).1 ∧
  user_embeddings (delete_user w1 uid st).2
    = user_embeddings (delete_user w2 uid st).2 ∧
  user_faces (delete_user w1 uid st).2 = user_faces (delete_user w2 uid st).2.
Proof.
  simpl. unfold register_face, delete_user.
  destruct (base64_to_image img) as [im|e];
    [destruct (detect_and_extract_face im) as [[face_img|] [emb|]]|];
    repeat case_decide; simpl;
    rewrite ?(proj1 (save_user_data_maps _ _)), ?(proj2 (save_user_data_maps _ _));
    simpl; repeat split; reflexivity.
Qed.

(** X11: right after such a registration, [get_user_info] answers for the
    user with the time of the registration and the shape of the face crop. *)
Theorem register_then_get_user_info (w : World) (uid img : string) (st : State)
    (im face_img : image) (emb : vector) :
  user_embeddings st !! uid = None →
  base64_to_image img = Return im →
  detect_and_extract_face im = (Some face_img, Some emb) →
  get_user_info uid (register_face w uid img st).2
    = Success MsgUserInfo
        {| ud_userId := uid; ud_createdAt := now w;
           ud_imageSize := shape face_img |}.
Proof.
  intros Hnew Him Hdet. unfold get_user_info, register_face.
  rewrite Him, Hdet.
  rewrite decide_False by (rewrite Hnew; apply is_Some_None). simpl.
  rewrite (proj2 (save_user_data_maps _ _)). simpl.
  now rewrite lookup_insert_eq.
Qed.

(** X12: registering a user that neither dictionary knows and deleting it
    again gives back the two dictionaries as they were. *)
Theorem register_then_delete (w w' : World) (uid img : string) (st : State)
    (im face_img : image) (emb : vector) :
  user_embeddings st !! uid = None →
  user_faces st !! uid = None →
  base64_to_image img = Return im →
  detect_and_extract_face im = (Some face_img, Some emb) →
  let after := delete_user w' uid (register_face w uid img st).2 in
  after.1 = Success MsgDeleted () ∧
  user_embeddings after.2 = user_embeddings st ∧
  user_faces after.2 = user_faces st.
Proof.
  intros Hnew Hnew' Him Hdet. unfold delete_user, register_face.
  rewrite Him, Hdet.
  rewrite (decide_False (P := is_Some (user_embeddings st !! uid)))
    by (rewrite Hnew; apply is_Some_None). simpl.
  rewrite (proj1 (save_user_data_maps _ _)), (proj2 (save_user_data_maps _ _)). simpl.
  rewrite !decide_True by (rewrite lookup_insert_eq; eauto). simpl.
  rewrite (proj1 (save_user_data_maps _ _)), (proj2 (save_user_data_maps _ _)). simpl.
  repeat split; now apply delete_insert_id.
Qed.

(** X13: deleting a user that both dictionaries know succeeds; afterwards
    neither dictionary knows the user, each holds one entry less, and the
    entries of every other user are as they were. *)
Theorem delete_user_known (w : World) (uid : string) (st : State) :
  is_Some (user_embeddings st !! uid) →
  is_Some (user_faces st !! uid) →
  let st' := (delete_user w uid st).2 in
  (delete_user w uid st).1 = Success MsgDeleted () ∧
  user_embeddings st' !! uid = None ∧
  user_faces st' !! uid = None ∧
  S (size (user_embeddings st')) = size (user_embeddings st) ∧
  S (size (user_faces st')) = size (user_faces st) ∧
  (∀ other, other ≠ uid →
     user_embeddings st' !! other = user_embeddings st !! other ∧
     user_faces st' !! other = user_faces st !! other).
Proof.
  intros He Hf. unfold delete_user. rewrite !decide_True by assumption. simpl.
  rewrite (proj1 (save_user_data_maps _ _)), (proj2 (save_user_data_maps _ _)). simpl.
  repeat split.
  - apply lookup_delete_eq.
  - apply lookup_delete_eq.
  - rewrite (map_size_delete_Some _ _ He).
    pose proof (map_size_ne_0_lookup_2 (user_embeddings st) uid He). lia.
  - rewrite (map_size_delete_Some _ _ Hf).
    pose proof (map_size_ne_0_lookup_2 (user_faces st) uid Hf). lia.
  - now apply lookup_delete_ne.
  - now apply lookup_delete_ne.
Qed.

(** X14: after such a deletion the user is unknown to every operation: a
    second deletion and [get_user_info] answer that the user does not exist,
    and a comparison answers that the user must register first. *)
Theorem delete_then_unknown (w w' : World) (uid img : string) (thr : option float)
    (st : State) :
  is_Some (user_embeddings st !! uid) →
  is_Some (user_faces st !! uid) →
  let st' := (delete_user w uid st).2 in
  delete_user w' uid st' = (Failure MsgUserMissing, st') ∧
  get_user_info uid st' = Failure MsgUserMissing ∧
  compare_faces uid img thr st' = Failure MsgUserMissingRegister.
Proof.
  intros He Hf. simpl.
  assert (Hgone : user_embeddings (delete_user w uid st).2 !! uid = None ∧
                  user_faces (delete_user w uid st).2 !! uid = None).
  { unfold delete_user. rewrite !decide_True by assumption. simpl.
    rewrite (proj1 (save_user_data_maps _ _)), (proj2 (save_user_data_maps _ _)).
    simpl. split; apply lookup_delete_eq. }
  destruct Hgone as [Hge Hgf]. repeat split.
  - unfold delete_user at 1.
    rewrite decide_False by (rewrite Hge; apply is_Some_None). reflexivity.
  - unfold get_user_info. now rewrite Hgf.
  - unfold compare_faces. now rewrite Hge.
Qed.

(** X15: when [user_embeddings] knows the user and [user_faces] does not,
    the deletion reports a failure after it has removed the embedding: the
    record dictionary and the snapshot are untouched, the embedding is
    gone. *)
Theorem delete_user_half_done (w : World) (uid : string) (st : State) :
  is_Some (user_embeddings st !! uid) →
  user_faces st !! uid = None →
  let st' := (delete_user w uid st).2 in
  success (delete_user w uid st).1 = false ∧
  user_embeddings st' = delete uid (user_embeddings st) ∧
  user_faces st' = user_faces st ∧
  user_data_pkl st' = user_data_pkl st.
Proof.
  intros He Hf. unfold delete_user. rewrite decide_True by assumption.
  rewrite decide_False by (rewrite Hf; apply is_Some_None). simpl. auto.
Qed.

End Registration.

Lemma register_face_new_user_witness :
  (@register_face Demo.backend Demo.world "alice" "portrait" Demo.empty_state).1
    = Success MsgRegistered
        {| rd_userId := "alice"; rd_faceData := "registered"; rd_faceCount := 1 |} ∧
  user_embeddings Demo.alice_state !! "alice" = Some [F64.one; F64.zero].
Proof.
  destruct (@register_face_new_user Demo.backend Demo.world "alice" "portrait"
              Demo.empty_state [Demo.near_face] [Demo.near_face] [F64.one; F64.zero]
              eq_refl eq_refl eq_refl) as (Hres & Hemb & _).
  split; [exact Hres | exact Hemb].
Defined.

Lemma register_face_failure_unchanged_witness :
  (@register_face Demo.backend Demo.world "bob" "landscape" Demo.alice_state).2
    = Demo.alice_state.
Proof.
  apply (@register_face_failure_unchanged Demo.backend Demo.world "bob" "landscape"
           Demo.alice_state).
  vm_compute. reflexivity.
Defined.

Lemma register_then_get_user_info_witness :
  @get_user_info Demo.backend "alice" Demo.alice_state
    = Success MsgUserInfo
        {| ud_userId := "alice"; ud_createdAt := now Demo.world;
           ud_imageSize := [200; 200; 3]%nat |}.
Proof.
  apply (@register_then_get_user_info Demo.backend Demo.world "alice" "portrait"
           Demo.empty_state [Demo.near_face] [Demo.near_face] [F64.one; F64.zero]);
    reflexivity.
Defined.

Lemma register_then_delete_witness :
  user_embeddings
    (@delete_user Demo.backend Sample.failing_world "alice" Demo.alice_state).2
    = user_embeddings Demo.empty_state.
Proof.
  apply (@register_then_delete Demo.backend Demo.world Sample.failing_world
           "alice" "portrait" Demo.empty_state
           [Demo.near_face] [Demo.near_face] [F64.one; F64.zero]);
    reflexivity.
Defined.

Lemma delete_user_known_witness :
  (@delete_user Demo.backend Demo.world "alice" Demo.alice_state).1
    = Success MsgDeleted ().
Proof.
  apply (@delete_user_known Demo.backend Demo.world "alice" Demo.alice_state);
    eexists; vm_compute; reflexivity.
Defined.

Lemma delete_then_unknown_witness :
  @compare_faces Demo.backend "alice" "portrait" (Some F64.c0_6)
    (@delete_user Demo.backend Demo.world "alice" Demo.alice_state).2
    = Failure MsgUserMissingRegister.
Proof.
  apply (@delete_then_unknown Demo.backend Demo.world Demo.world "alice" "portrait"
           (Some F64.c0_6) Demo.alice_state);
    eexists; vm_compute; reflexivity.
Defined.

Lemma delete_user_half_done_witness :
  success (@delete_user Demo.backend Demo.world "alice" Sample.split_state).1 = false ∧
  user_embeddings (@delete_user Demo.backend Demo.world "alice" Sample.split_state).2
    = delete "alice" (user_embeddings Sample.split_state).
Proof.
  destruct (@delete_user_half_done Demo.backend Demo.world "alice" Sample.split_state)
    as (Hfail & Hemb & _).
  - eexists. vm_compute. reflexivity.
  - vm_compute. reflexivity.
  - split; [exact Hfail | exact Hemb].
Defined.

(* ===================================================================== *)
(** ** More on the comparison *)
(* ===================================================================== *)

(** *** The conversion of a Python float to [float32] keeps the order *)

Section Float32Order.
Local Open Scope Z_scope.

Lemma le_pos_finite (m1 m2 : positive) (e1 e2 : Z) :
  SFleb (S754_finite false m1 e1) (S754_finite false m2 e2) = true ↔
  e1 < e2 ∨ (e1 = e2 ∧ (m1 ≤ m2)%positive).
Proof.
  unfold SFleb, SFcompare. change (Pos.compare_cont Eq) with Pos.compare.
  destruct (Z.compare_spec e1 e2); destruct (Pos.compare_spec m1 m2);
    split; intros; try discriminate; try reflexivity; try lia.
Qed.

Lemma clamp_mantissa_bounds (m : positive) (e : Z) :
  1 ≤ F32.clamp_mantissa (Z.pos m) e ≤ 2^53 - 1 ∧
  (-1074 < e → 2^52 ≤ F32.clamp_mantissa (Z.pos m) e).
Proof.
  unfold F32.clamp_mantissa. destruct (Z.eqb_spec e (-1074)); lia.
Qed.

Lemma clamp_mantissa_mono (m1 m2 : positive) (e : Z) :
  (m1 ≤ m2)%positive →
  F32.clamp_mantissa (Z.pos m1) e ≤ F32.clamp_mantissa (Z.pos m2) e.
Proof.
  unfold F32.clamp_mantissa. destruct (Z.eqb_spec e (-1074)); lia.
Qed.

Lemma scaled_nonneg (m : positive) (e : Z) : 0 ≤ F32.scaled m e.
Proof.
  unfold F32.scaled. destruct (Z.ltb_spec e (-1074)); [lia|].
  destruct (Z.ltb_spec 971 e); [lia|].
  pose proof (clamp_mantissa_bounds m e) as [[? ?] _].
  assert (0 < 2 ^ (e + 1074)) by (apply Z.pow_pos_nonneg; lia). nia.
Qed.

Lemma scaled_mono (m1 m2 : positive) (e1 e2 : Z) :
  e1 < e2 ∨ (e1 = e2 ∧ (m1 ≤ m2)%positive) →
  F32.scaled m1 e1 ≤ F32.scaled m2 e2.
Proof.
  intros [Hlt|[-> Hm]].
  - pose proof (scaled_nonneg m2 e2) as H2. unfold F32.scaled in *.
    destruct (Z.ltb_spec e1 (-1074)); [lia|].
    destruct (Z.ltb_spec e2 (-1074)); [lia|].
    pose proof (clamp_mantissa_bounds m1 e1) as [[? ?] _].
    destruct (Z.ltb_spec 971 e1); [destruct (Z.ltb_spec 971 e2); lia|].
    destruct (Z.ltb_spec 971 e2).
    + assert (2 ^ (e1 + 1074) ≤ 2 ^ 2045) by (apply Z.pow_le_mono_r; lia).
      assert (0 < 2 ^ (e1 + 1074)) by (apply Z.pow_pos_nonneg; lia).
      change (2 ^ 2100) with (2 ^ 53 * 2 ^ 2045 * 4). nia.
    + pose proof (clamp_mantissa_bounds m2 e2) as [_ Hn]. specialize (Hn ltac:(lia)).
      assert (0 < 2 ^ (e1 + 1074)) by (apply Z.pow_pos_nonneg; lia).
      assert (2 * 2 ^ (e1 + 1074) ≤ 2 ^ (e2 + 1074)).
      { rewrite <- Z.pow_succ_r by lia. apply Z.pow_le_mono_r; lia. }
      nia.
  - unfold F32.scaled.
    destruct (Z.ltb_spec e2 (-1074)); [lia|].
    destruct (Z.ltb_spec 971 e2); [lia|].
    apply Z.mul_le_mono_nonneg_r; [apply Z.pow_nonneg; lia|].
    now apply clamp_mantissa_mono.
Qed.

Lemma rne_cases (P a : Z) :
  0 < P →
  ∃ q r, a = P * q + r ∧ 0 ≤ r < P ∧
         ((2 * r < P ∧ F32.rne P a = q) ∨
          (2 * r = P ∧ (F32.rne P a = q ∨ F32.rne P a = q + 1)) ∨
          (P < 2 * r ∧ F32.rne P a = q + 1)).
Proof.
  intros HP. exists (a / P), (a mod P). split; [apply Z.div_mod; lia|].
  split; [apply Z.mod_pos_bound; lia|].
  unfold F32.rne. destruct (Z.compare_spec (2 * (a mod P)) P); auto.
  right. left. split; [assumption|]. destruct (Z.even (a / P)); auto.
Qed.

Lemma rne_upper (P a c : Z) : 0 < P → a ≤ c * P → F32.rne P a ≤ c.
Proof.
  intros HP Ha. destruct (rne_cases P a HP) as (q & r & -> & Hr & Hc).
  assert (q ≤ c) by nia.
  destruct (Z.eq_dec q c) as [->|]; [|lia].
  assert (r = 0) by nia. lia.
Qed.

Lemma rne_lower (P a c : Z) : 0 < P → c * P ≤ a → c ≤ F32.rne P a.
Proof.
  intros HP Ha. destruct (rne_cases P a HP) as (q & r & -> & Hr & Hc).
  assert (c ≤ q) by nia. lia.
Qed.

Lemma rne_mono (P a1 a2 : Z) : 0 < P → a1 ≤ a2 → F32.rne P a1 ≤ F32.rne P a2.
Proof.
  intros HP Ha. unfold F32.rne.
  pose proof (Z.div_mod a1 P ltac:(lia)) as E1.
  pose proof (Z.div_mod a2 P ltac:(lia)) as E2.
  pose proof (Z.mod_pos_bound a1 P HP) as B1.
  pose proof (Z.mod_pos_bound a2 P HP) as B2.
  pose proof (Z.div_le_mono a1 a2 P HP Ha) as Hq.
  destruct (Z.eq_dec (a1 / P) (a2 / P)) as [Heq|Hne].
  - rewrite Heq in *. assert (a1 mod P ≤ a2 mod P) by lia.
    destruct (Z.compare_spec (2 * (a1 mod P)) P), (Z.compare_spec (2 * (a2 mod P)) P);
      destruct (Z.even (a2 / P)); lia.
  - destruct (Z.compare_spec (2 * (a1 mod P)) P), (Z.compare_spec (2 * (a2 mod P)) P);
      destruct (Z.even (a1 / P)), (Z.even (a2 / P)); lia.
Qed.

Lemma round_scaled_nonneg (V : Z) : 0 ≤ V → 0 ≤ F32.round_scaled V.
Proof.
  intros HV. unfold F32.round_scaled.
  set (k := Z.max (Z.log2 V - 23) 925).
  assert (HP : 0 < 2 ^ k) by (apply Z.pow_pos_nonneg; lia).
  pose proof (rne_lower (2 ^ k) V 0 HP ltac:(lia)). nia.
Qed.

Lemma round_scaled_mono (V1 V2 : Z) :
  0 ≤ V1 → V1 ≤ V2 → F32.round_scaled V1 ≤ F32.round_scaled V2.
Proof.
  intros H1 H12.
  destruct (Z.eq_dec V1 0) as [->|Hpos].
  { change (F32.round_scaled 0) with 0. apply round_scaled_nonneg. lia. }
  assert (HV1 : 0 < V1) by lia. assert (HV2 : 0 < V2) by lia.
  pose proof (Z.log2_le_mono V1 V2 H12) as Hlog.
  pose proof (Z.log2_spec V1 HV1) as [L1lo L1hi].
  pose proof (Z.log2_spec V2 HV2) as [L2lo L2hi].
  pose proof (Z.log2_nonneg V1) as L1n.
  unfold F32.round_scaled.
  set (k1 := Z.max (Z.log2 V1 - 23) 925). set (k2 := Z.max (Z.log2 V2 - 23) 925).
  assert (HP1 : 0 < 2 ^ k1) by (apply Z.pow_pos_nonneg; lia).
  assert (HP2 : 0 < 2 ^ k2) by (apply Z.pow_pos_nonneg; lia).
  destruct (Z.eq_dec k1 k2) as [Hk|Hk].
  - rewrite Hk. apply Z.mul_le_mono_nonneg_r; [lia|]. now apply rne_mono.
  - assert (Hk2 : k2 = Z.log2 V2 - 23) by lia.
    assert (Hl : Z.log2 V1 < Z.log2 V2) by lia.
    apply Z.le_trans with (2 ^ Z.log2 V2).
    + destruct (Z.le_gt_cases k1 (Z.log2 V1 + 1)) as [Hc|Hc].
      * assert (Hup : F32.rne (2 ^ k1) V1 ≤ 2 ^ (Z.log2 V1 + 1 - k1)).
        { apply rne_upper; [assumption|].
          rewrite <- Z.pow_add_r by lia.
          replace (Z.log2 V1 + 1 - k1 + k1) with (Z.succ (Z.log2 V1)) by lia. lia. }
        apply Z.le_trans with (2 ^ (Z.log2 V1 + 1 - k1) * 2 ^ k1).
        { apply Z.mul_le_mono_nonneg_r; lia. }
        rewrite <- Z.pow_add_r by lia. apply Z.pow_le_mono_r; lia.
      * assert (Hup : F32.rne (2 ^ k1) V1 ≤ 1).
        { apply rne_upper; [assumption|].
          assert (2 ^ Z.succ (Z.log2 V1) ≤ 2 ^ k1) by (apply Z.pow_le_mono_r; lia). lia. }
        apply Z.le_trans with (1 * 2 ^ k1).
        { apply Z.mul_le_mono_nonneg_r; lia. }
        rewrite Z.mul_1_l. apply Z.pow_le_mono_r; lia.
    + assert (Hlo : 2 ^ 23 ≤ F32.rne (2 ^ k2) V2).
      { apply rne_lower; [assumption|].
        rewrite <- Z.pow_add_r by lia.
        replace (23 + k2) with (Z.log2 V2) by lia. lia. }
      apply Z.le_trans with (2 ^ 23 * 2 ^ k2).
      { rewrite <- Z.pow_add_r by lia. apply Z.pow_le_mono_r; lia. }
      apply Z.mul_le_mono_nonneg_r; lia.
Qed.

Lemma of_scaled_shape (R : Z) : nonneg_shape (F32.of_scaled R).
Proof.
  unfold F32.of_scaled. destruct (R =? 0); [exact I|].
  destruct (2 ^ 1202 <=? R); [exact I|].
  destruct (52 <=? Z.log2 R); exact I.
Qed.

Lemma le_zero_nonneg_shape (x : float) :
  nonneg_shape x → SFleb (S754_zero false) x = true.
Proof. destruct x as [[]|[]| |[] m e]; simpl; intros []; reflexivity. Qed.

Lemma le_nonneg_shape_inf (x : float) :
  nonneg_shape x → SFleb x (S754_infinity false) = true.
Proof. destruct x as [[]|[]| |[] m e]; simpl; intros []; reflexivity. Qed.

Lemma le_opp_nonneg_shape (x y : float) :
  nonneg_shape x → nonneg_shape y → SFleb (SFopp x) y = true.
Proof.
  destruct x as [[]|[]| |[] mx ex], y as [[]|[]| |[] my ey]; simpl;
    intros [] []; reflexivity.
Qed.

Lemma le_opp_opp (x y : float) :
  nonneg_shape x → nonneg_shape y → SFleb (SFopp y) (SFopp x) = SFleb x y.
Proof.
  destruct x as [[]|[]| |[] mx ex], y as [[]|[]| |[] my ey]; simpl;
    intros [] []; try reflexivity.
  unfold SFleb, SFcompare. rewrite (Z.compare_antisym ey ex).
  change (Pos.compare_cont Eq) with Pos.compare.
  rewrite (Pos.compare_antisym my mx).
  destruct (ey ?= ex)%Z; simpl; try reflexivity;
    now destruct (my ?= mx)%positive.
Qed.

Lemma to_pos_le (a b : Z) : 0 < a → a ≤ b → (Z.to_pos a ≤ Z.to_pos b)%positive.
Proof. lia. Qed.

Lemma of_scaled_mono (R1 R2 : Z) :
  0 ≤ R1 → R1 ≤ R2 → SFleb (F32.of_scaled R1) (F32.of_scaled R2) = true.
Proof.
  intros H1 H12. unfold F32.of_scaled at 1.
  destruct (Z.eqb_spec R1 0) as [|Hn1];
    [apply le_zero_nonneg_shape, of_scaled_shape|].
  assert (HR1 : 0 < R1) by lia. assert (HR2 : 0 < R2) by lia.
  unfold F32.of_scaled.
  destruct (Z.eqb_spec R2 0); [lia|].
  destruct (Z.leb_spec (2 ^ 1202) R1) as [Ho1|Ho1].
  { destruct (Z.leb_spec (2 ^ 1202) R2); [reflexivity | lia]. }
  destruct (Z.leb_spec (2 ^ 1202) R2) as [Ho2|Ho2].
  { destruct (52 <=? Z.log2 R1); reflexivity. }
  pose proof (Z.log2_le_mono R1 R2 H12) as Hlog.
  pose proof (Z.log2_spec R1 HR1) as [L1lo L1hi].
  pose proof (Z.log2_spec R2 HR2) as [L2lo L2hi].
  assert (Hm : ∀ R, 0 < R → 52 ≤ Z.log2 R → 2 ^ 52 ≤ R / 2 ^ (Z.log2 R - 52)).
  { intros R HR Hd. apply Z.div_le_lower_bound; [apply Z.pow_pos_nonneg; lia|].
    rewrite <- Z.pow_add_r by lia.
    replace (Z.log2 R - 52 + 52) with (Z.log2 R) by lia.
    apply Z.log2_spec. exact HR. }
  destruct (Z.leb_spec 52 (Z.log2 R1)) as [Hd1|Hd1];
    destruct (Z.leb_spec 52 (Z.log2 R2)) as [Hd2|Hd2]; try lia;
    apply le_pos_finite.
  - destruct (Z.eq_dec (Z.log2 R1) (Z.log2 R2)) as [Heq|Hne]; [right|left; lia].
    split; [lia|]. rewrite Heq.
    pose proof (Hm R2 HR2 Hd2). pose proof (Hm R1 HR1 Hd1) as Hm1. rewrite Heq in Hm1.
    apply to_pos_le; [lia|].
    apply Z.div_le_mono; [apply Z.pow_pos_nonneg; lia | exact H12].
  - destruct (Z.eq_dec (Z.log2 R2) 52) as [Heq|Hne]; [right|left; lia].
    split; [lia|]. pose proof (Hm R2 HR2 Hd2) as Hm2.
    apply to_pos_le; [lia|].
    assert (2 ^ Z.succ (Z.log2 R1) ≤ 2 ^ 52) by (apply Z.pow_le_mono_r; lia).
    rewrite Heq, Z.sub_diag, Z.pow_0_r, Z.div_1_r in *. lia.
  - right. split; [reflexivity|]. apply to_pos_le; lia.
Qed.

Lemma of_python_finite_shape (m : positive) (e : Z) :
  nonneg_shape (F32.of_python (S754_finite false m e)).
Proof. apply of_scaled_shape. Qed.

Lemma of_python_opp (s : bool) (m : positive) (e : Z) :
  F32.of_python (S754_finite s m e)
  = if s then SFopp (F32.of_python (S754_finite false m e))
    else F32.of_python (S754_finite false m e).
Proof. reflexivity. Qed.

Lemma of_python_mono_pos (m1 m2 : positive) (e1 e2 : Z) :
  SFleb (S754_finite false m1 e1) (S754_finite false m2 e2) = true →
  SFleb (F32.of_python (S754_finite false m1 e1))
        (F32.of_python (S754_finite false m2 e2)) = true.
Proof.
  intros Hle%le_pos_finite. simpl.
  apply of_scaled_mono; [apply round_scaled_nonneg, scaled_nonneg|].
  apply round_scaled_mono; [apply scaled_nonneg | now apply scaled_mono].
Qed.

(** The conversion of a Python float to [float32] keeps the order. *)
Lemma of_python_mono (x y : float) :
  SFleb x y = true → SFleb (F32.of_python x) (F32.of_python y) = true.
Proof.
  destruct x as [sx|sx| |sx mx ex], y as [sy|sy| |sy my ey];
    try (simpl; congruence); try discriminate.
  - (* zero, finite *)
    destruct sy; [destruct sx; discriminate|]. intros _.
    pose proof (of_python_finite_shape my ey) as Hs.
    destruct (F32.of_python (S754_finite false my ey)) as [[]|[]| |[] m e];
      destruct Hs; destruct sx; reflexivity.
  - (* infinity, finite *)
    destruct sx; [|discriminate]. intros _. rewrite of_python_opp.
    pose proof (of_python_finite_shape my ey) as Hs.
    destruct (F32.of_python (S754_finite false my ey)) as [[]|[]| |[] m e];
      destruct Hs; destruct sy; reflexivity.
  - (* finite, zero *)
    destruct sx; [|destruct sy; discriminate]. intros _. rewrite of_python_opp.
    pose proof (of_python_finite_shape mx ex) as Hs.
    destruct (F32.of_python (S754_finite false mx ex)) as [[]|[]| |[] m e];
      destruct Hs; destruct sy; reflexivity.
  - (* finite, infinity *)
    destruct sy; [destruct sx; discriminate|]. intros _. rewrite of_python_opp.
    pose proof (of_python_finite_shape mx ex) as Hs.
    destruct (F32.of_python (S754_finite false mx ex)) as [[]|[]| |[] m e];
      destruct Hs; destruct sx; reflexivity.
  - (* finite, finite *)
    rewrite (of_python_opp sx), (of_python_opp sy).
    destruct sx, sy.
    + intros Hle. rewrite le_opp_opp by apply of_python_finite_shape.
      apply of_python_mono_pos.
      rewrite <- (le_opp_opp (S754_finite false my ey) (S754_finite false mx ex));
        [exact Hle | exact I | exact I].
    + intros _. apply le_opp_nonneg_shape; apply of_python_finite_shape.
    + discriminate.
    + apply of_python_mono_pos.
Qed.

End Float32Order.

(** *** The conversion is the rounding to binary32 of the Standard Library *)

Section Float32Rounding.
Local Open Scope Z_scope.

Lemma digits2_pos_size (m : positive) : digits2_pos m = Pos.size m.
Proof. induction m as [m IH|m IH|]; simpl; now rewrite ?IH. Qed.

Lemma digits2_pos_log2 (m : positive) : Z.pos (digits2_pos m) = Z.log2 (Z.pos m) + 1.
Proof.
  rewrite digits2_pos_size. destruct m as [m|m|]; simpl; try reflexivity; lia.
Qed.

Lemma iter_pos_nat {A : Type} (f : A → A) (p : positive) (x : A) :
  SpecFloat.iter_pos f p x = Nat.iter (Pos.to_nat p) f x.
Proof.
  revert x. induction p as [p IH|p IH|]; intros x; cbn [SpecFloat.iter_pos].
  - rewrite !IH, Pos2Nat.inj_xI.
    rewrite <- Nat.iter_add, <- Nat.iter_succ_r. f_equal. lia.
  - rewrite !IH, Pos2Nat.inj_xO.
    rewrite <- Nat.iter_add. f_equal. lia.
  - reflexivity.
Qed.

Lemma shr_1_nonneg_spec (a : Z) (r s : bool) :
  0 ≤ a →
  shr_1 {| shr_m := a; shr_r := r; shr_s := s |}
  = {| shr_m := a / 2; shr_r := Z.odd a; shr_s := r || s |}.
Proof.
  intros Ha. destruct a as [|[p|p|]|p]; try lia; simpl.
  - reflexivity.
  - f_equal. rewrite Pos2Z.inj_xI.
    apply (Z.div_unique _ _ _ 1); lia.
  - f_equal. rewrite Pos2Z.inj_xO.
    apply (Z.div_unique _ _ _ 0); lia.
  - reflexivity.
Qed.

(** [n + 1] shifts of an exact record. *)
Lemma iter_shr_1 (a : Z) (n : nat) :
  0 ≤ a →
  Nat.iter (S n) shr_1 {| shr_m := a; shr_r := false; shr_s := false |}
  = {| shr_m := a / 2 ^ Z.of_nat (S n);
       shr_r := Z.testbit a (Z.of_nat n);
       shr_s := negb (a mod 2 ^ Z.of_nat n =? 0) |}.
Proof.
  intros Ha. induction n as [|n IH].
  - rewrite Nat.iter_succ. cbv [Nat.iter nat_rect].
    rewrite shr_1_nonneg_spec by exact Ha.
    change (Z.of_nat 0) with 0. change (Z.of_nat 1) with 1.
    rewrite Z.pow_1_r, Z.pow_0_r, Z.mod_1_r. reflexivity.
  - rewrite Nat.iter_succ, IH.
    rewrite shr_1_nonneg_spec by (apply Z.div_pos; [lia | apply Z.pow_pos_nonneg; lia]).
    f_equal.
    + rewrite Z.div_div by (try apply Z.pow_pos_nonneg; lia).
      f_equal. rewrite (Nat2Z.inj_succ (S n)), Z.pow_succ_r by lia. lia.
    + rewrite Z.testbit_odd, Z.shiftr_div_pow2 by lia. reflexivity.
    + rewrite (Nat2Z.inj_succ n), Z.pow_succ_r by lia.
      rewrite (Z.mul_comm 2), Z.rem_mul_r by (try apply Z.pow_nonzero; lia).
      rewrite Z.testbit_odd, Z.shiftr_div_pow2 by lia.
      rewrite (Zmod_odd (a / 2 ^ Z.of_nat n)).
      pose proof (Z.mod_pos_bound a (2 ^ Z.of_nat n) ltac:(apply Z.pow_pos_nonneg; lia)).
      assert (0 < 2 ^ Z.of_nat n) by (apply Z.pow_pos_nonneg; lia).
      destruct (Z.odd (a / 2 ^ Z.of_nat n)); simpl.
      * symmetry. apply negb_true_iff, Z.eqb_neq. lia.
      * f_equal. f_equal. lia.
Qed.

(** Shifting an exact mantissa right and rounding to nearest even is [rne]. *)
Lemma round_shr (a : Z) (n : positive) :
  0 ≤ a →
  round_nearest_even
    (shr_m (SpecFloat.iter_pos shr_1 n {| shr_m := a; shr_r := false; shr_s := false |}))
    (loc_of_shr_record
       (SpecFloat.iter_pos shr_1 n {| shr_m := a; shr_r := false; shr_s := false |}))
  = F32.rne (2 ^ Z.pos n) a.
Proof.
  intros Ha. rewrite iter_pos_nat.
  destruct (Pos2Nat.is_succ n) as [k Hk]. rewrite Hk, iter_shr_1 by exact Ha.
  assert (Hn : Z.pos n = Z.succ (Z.of_nat k)) by lia.
  rewrite Hn, <- Nat2Z.inj_succ. simpl shr_m. unfold loc_of_shr_record, F32.rne.
  set (N := Z.of_nat k). assert (HN : 0 ≤ N) by lia.
  replace (Z.of_nat (S k)) with (Z.succ N) by lia.
  assert (HP : 0 < 2 ^ N) by (apply Z.pow_pos_nonneg; lia).
  assert (Hr : a mod 2 ^ Z.succ N
               = a mod 2 ^ N + 2 ^ N * (if Z.odd (a / 2 ^ N) then 1 else 0)).
  { rewrite Z.pow_succ_r, (Z.mul_comm 2), Z.rem_mul_r by lia.
    now rewrite (Zmod_odd (a / 2 ^ N)). }
  pose proof (Z.mod_pos_bound a (2 ^ N) HP) as Hb.
  rewrite Hr, Z.testbit_odd, Z.shiftr_div_pow2 by lia.
  rewrite (Z.pow_succ_r 2 N HN) at 2.
  destruct (Z.odd (a / 2 ^ N)); destruct (Z.eqb_spec (a mod 2 ^ N) 0) as [Hz|Hz];
    simpl negb; cbv iota.
  - rewrite Hz. replace (2 * (0 + 2 ^ N * 1) ?= 2 * 2 ^ N) with Eq; [reflexivity|].
    symmetry. apply Z.compare_eq_iff. lia.
  - replace (2 * (a mod 2 ^ N + 2 ^ N * 1) ?= 2 * 2 ^ N) with Gt; [reflexivity|].
    symmetry. apply Z.compare_gt_iff. lia.
  - replace (2 * (a mod 2 ^ N + 2 ^ N * 0) ?= 2 * 2 ^ N) with Lt; [reflexivity|].
    symmetry. apply Z.compare_lt_iff. lia.
  - replace (2 * (a mod 2 ^ N + 2 ^ N * 0) ?= 2 * 2 ^ N) with Lt; [reflexivity|].
    symmetry. apply Z.compare_lt_iff. lia.
Qed.

Lemma rne_scale (P a c : Z) : 0 < P → 0 < c → F32.rne (P * c) (a * c) = F32.rne P a.
Proof.
  intros HP Hc. unfold F32.rne.
  rewrite Z.div_mul_cancel_r, Z.mul_mod_distr_r by lia.
  replace (2 * (a mod P * c) ?= P * c) with (2 * (a mod P) ?= P); [reflexivity|].
  destruct (Z.compare_spec (2 * (a mod P)) P); symmetry;
    [apply Z.compare_eq_iff | apply Z.compare_lt_iff | apply Z.compare_gt_iff]; nia.
Qed.


Lemma Zdigits2_log2 (z : Z) : 0 < z → Zdigits2 z = Z.log2 z + 1.
Proof. destruct z as [|p|p]; try lia. intros _. apply digits2_pos_log2. Qed.

Lemma fexp32 (x : Z) : fexp F32.prec F32.emax x = Z.max (x - 24) (-149).
Proof. reflexivity. Qed.

Lemma fexp64 (x : Z) : fexp F64.prec F64.emax x = Z.max (x - 53) (-1074).
Proof. reflexivity. Qed.

(** The bounds of [rne] on a mantissa of [D] bits shifted by at least
    [D - 24]. *)
Lemma rne_mantissa_bounds (m : positive) (n : Z) :
  0 < n → Z.log2 (Z.pos m) + 1 - 24 ≤ n →
  0 ≤ F32.rne (2 ^ n) (Z.pos m) ≤ 2 ^ 24 ∧
  (n = Z.log2 (Z.pos m) + 1 - 24 → 2 ^ 23 ≤ F32.rne (2 ^ n) (Z.pos m)).
Proof.
  intros Hn HD.
  assert (HP : 0 < 2 ^ n) by (apply Z.pow_pos_nonneg; lia).
  pose proof (Z.log2_spec (Z.pos m) ltac:(lia)) as [Hlo Hhi].
  pose proof (Z.log2_nonneg (Z.pos m)) as Hl.
  split; [split|].
  - apply rne_lower; [exact HP | lia].
  - apply rne_upper; [exact HP|]. rewrite <- Z.pow_add_r by lia.
    apply Z.le_trans with (2 ^ Z.succ (Z.log2 (Z.pos m))); [lia|].
    apply Z.pow_le_mono_r; lia.
  - intros ->. apply rne_lower; [exact HP|]. rewrite <- Z.pow_add_r by lia.
    replace (23 + (Z.log2 (Z.pos m) + 1 - 24)) with (Z.log2 (Z.pos m)) by lia.
    exact Hlo.
Qed.

(** The first shift of [binary_round_aux] on an exact mantissa. *)
Lemma shr_fexp_first (m : positive) (e : Z) :
  let E1 := Z.max (Z.log2 (Z.pos m) + 1 + e - 24) (-149) in
  e < E1 →
  shr_fexp F32.prec F32.emax (Z.pos m) e loc_Exact
  = (SpecFloat.iter_pos shr_1 (Z.to_pos (E1 - e))
       {| shr_m := Z.pos m; shr_r := false; shr_s := false |}, E1).
Proof.
  intros E1 HE. unfold shr_fexp.
  rewrite (Zdigits2_log2 (Z.pos m)) by lia. rewrite fexp32. fold E1.
  unfold shr, shr_record_of_loc.
  destruct (E1 - e) as [|n|n] eqn:Hn; try lia.
  f_equal. lia.
Qed.

(** The second shift, on a rounded mantissa of at most 25 bits at an
    exponent of binary32. *)
Lemma shr_fexp_second (m1 E1 : Z) :
  0 ≤ m1 ≤ 2 ^ 24 → -149 ≤ E1 →
  shr_fexp F32.prec F32.emax m1 E1 loc_Exact
  = if m1 =? 2 ^ 24
    then ({| shr_m := 2 ^ 23; shr_r := false; shr_s := false |}, E1 + 1)
    else ({| shr_m := m1; shr_r := false; shr_s := false |}, E1).
Proof.
  intros [Hlo Hhi] HE. unfold shr_fexp. rewrite fexp32.
  destruct (Z.eqb_spec m1 (2 ^ 24)) as [H24|H24].
  { rewrite H24. rewrite (Zdigits2_log2 (2 ^ 24)) by lia.
    rewrite Z.log2_pow2 by lia.
    replace (Z.max (24 + 1 + E1 - 24) (-149) - E1) with 1 by lia.
    reflexivity. }
  destruct (Z.eq_dec m1 0) as [->|H0].
  { unfold Zdigits2, shr_record_of_loc, shr.
    destruct (Z.max (0 + E1 - 24) (-149) - E1) eqn:Hs; try lia; reflexivity. }
  rewrite (Zdigits2_log2 m1) by lia.
  assert (Hl : Z.log2 m1 < 24) by (apply Z.log2_lt_pow2; lia).
  unfold shr, shr_record_of_loc.
  destruct (Z.max (Z.log2 m1 + 1 + E1 - 24) (-149) - E1) eqn:Hs; try lia;
    reflexivity.
Qed.

(** Rounding an exact mantissa to binary32 when it has to be shifted. *)
Lemma binary_round_aux32 (s : bool) (m : positive) (e : Z) :
  let E1 := Z.max (Z.log2 (Z.pos m) + 1 + e - 24) (-149) in
  let m1 := F32.rne (2 ^ (E1 - e)) (Z.pos m) in
  e < E1 →
  binary_round_aux F32.prec F32.emax s (Z.pos m) e loc_Exact
  = if m1 =? 0 then S754_zero s
    else if m1 =? 2 ^ 24 then
      if E1 + 1 <=? 104 then S754_finite s (Z.to_pos (2 ^ 23)) (E1 + 1)
      else S754_infinity s
    else if E1 <=? 104 then S754_finite s (Z.to_pos m1) E1
    else S754_infinity s.
Proof.
  intros E1 m1 HE.
  unfold binary_round_aux. rewrite shr_fexp_first by exact HE. fold E1.
  rewrite round_shr by lia.
  replace (Z.pos (Z.to_pos (E1 - e))) with (E1 - e) by lia. fold m1.
  destruct (rne_mantissa_bounds m (E1 - e) ltac:(lia) ltac:(lia)) as [[Hlo Hhi] _].
  fold m1 in Hlo, Hhi.
  rewrite shr_fexp_second by lia.
  change (F32.emax - F32.prec) with 104.
  destruct (Z.eqb_spec m1 (2 ^ 24)) as [H24|H24].
  { destruct (Z.eqb_spec m1 0); [lia|]. reflexivity. }
  simpl shr_m. destruct (Z.eqb_spec m1 0) as [H0|H0].
  { now rewrite H0. }
  destruct m1 as [|p|p]; try lia. reflexivity.
Qed.


Lemma pos_iter_xO (m d : positive) : Z.pos (Pos.iter xO m d) = Z.pos m * 2 ^ Z.pos d.
Proof.
  rewrite <- Z.shiftl_mul_pow2 by lia. unfold Z.shiftl.
  apply Pos.iter_swap_gen. reflexivity.
Qed.

(** A mantissa of 53 bits at an exponent of binary64 is left as it is. *)
Lemma binary_round_aux64_exact (s : bool) (m : positive) (e : Z) :
  Z.log2 (Z.pos m) = 52 → -1074 ≤ e ≤ 971 →
  binary_round_aux F64.prec F64.emax s (Z.pos m) e loc_Exact = S754_finite s m e.
Proof.
  intros Hd He.
  assert (Hs : ∀ l, shr_fexp F64.prec F64.emax (Z.pos m) e l
                    = (shr_record_of_loc (Z.pos m) l, e)).
  { intros l. unfold shr_fexp. rewrite (Zdigits2_log2 (Z.pos m)) by lia.
    rewrite fexp64, Hd. replace (Z.max (52 + 1 + e - 53) (-1074) - e) with 0 by lia.
    reflexivity. }
  unfold binary_round_aux. rewrite Hs. simpl shr_m. simpl loc_of_shr_record.
  simpl round_nearest_even. rewrite Hs. simpl shr_m.
  change (F64.emax - F64.prec) with 971.
  destruct (Z.leb_spec e 971); [reflexivity | lia].
Qed.

(** [float(x)] of a mantissa of at most 53 bits: the mantissa is shifted
    to 53 bits. *)
Lemma binary_round64_exact (s : bool) (m : positive) (e : Z) :
  let D := Z.log2 (Z.pos m) + 1 in
  D ≤ 53 → -1074 ≤ D + e - 53 ≤ 971 →
  binary_round F64.prec F64.emax s m e
  = S754_finite s (Z.to_pos (Z.pos m * 2 ^ (53 - D))) (D + e - 53).
Proof.
  intros D HD He. unfold binary_round.
  rewrite digits2_pos_log2, fexp64. fold D.
  replace (Z.max (D + e - 53) (-1074)) with (D + e - 53) by lia.
  unfold shl_align.
  pose proof (Z.log2_nonneg (Z.pos m)) as Hl.
  destruct (D + e - 53 - e) as [|d|d] eqn:Hs; try lia.
  - assert (HD53 : D = 53) by lia.
    rewrite HD53, Z.sub_diag, Z.pow_0_r, Z.mul_1_r. simpl Z.to_pos.
    replace (53 + e - 53) with e by lia.
    apply binary_round_aux64_exact; lia.
  - assert (Hk : 53 - D = Z.pos d) by lia. rewrite Hk.
    rewrite <- pos_iter_xO. simpl Z.to_pos.
    apply binary_round_aux64_exact; [|lia].
    rewrite pos_iter_xO, Z.log2_mul_pow2 by lia. lia.
Qed.


(** What [bounded] says of a binary64 number. *)
Lemma bounded64 (m : positive) (e : Z) :
  bounded F64.prec F64.emax m e = true →
  -1074 ≤ e ≤ 971 ∧ Z.log2 (Z.pos m) + 1 ≤ 53 ∧
  (Z.log2 (Z.pos m) + 1 = 53 ∨ e = -1074).
Proof.
  unfold bounded, canonical_mantissa. rewrite digits2_pos_log2, fexp64.
  change (F64.emax - F64.prec) with 971.
  intros [Hc He]%andb_true_iff. apply Z.eqb_eq in Hc. apply Z.leb_le in He. lia.
Qed.

Lemma scaled_valid (m : positive) (e : Z) :
  bounded F64.prec F64.emax m e = true →
  F32.scaled m e = Z.pos m * 2 ^ (e + 1074).
Proof.
  intros (He & HD & Hn)%bounded64.
  pose proof (Z.log2_spec (Z.pos m) ltac:(lia)) as [Hlo Hhi].
  assert (Hm : Z.pos m < 2 ^ 53).
  { apply Z.lt_le_trans with (2 ^ Z.succ (Z.log2 (Z.pos m))); [exact Hhi|].
    apply Z.pow_le_mono_r; lia. }
  unfold F32.scaled, F32.clamp_mantissa.
  destruct (Z.ltb_spec e (-1074)); [lia|]. destruct (Z.ltb_spec 971 e); [lia|].
  f_equal. destruct (Z.eqb_spec e (-1074)); [lia|].
  assert (Z.log2 (Z.pos m) = 52) as Hl by lia. rewrite Hl in Hlo. lia.
Qed.

Lemma round_scaled_valid (m : positive) (e : Z) :
  let E1 := Z.max (Z.log2 (Z.pos m) + 1 + e - 24) (-149) in
  bounded F64.prec F64.emax m e = true →
  e < E1 ∧
  F32.round_scaled (F32.scaled m e)
  = F32.rne (2 ^ (E1 - e)) (Z.pos m) * 2 ^ (E1 + 1074).
Proof.
  intros E1 Hb. rewrite (scaled_valid m e Hb).
  destruct (bounded64 m e Hb) as (He & HD & Hn).
  pose proof (Z.log2_nonneg (Z.pos m)) as Hl.
  assert (HE : e < E1) by (unfold E1; lia). split; [exact HE|].
  unfold F32.round_scaled. rewrite Z.log2_mul_pow2 by lia.
  set (k := Z.max _ 925).
  assert (Hk : k = (E1 - e) + (e + 1074)) by (unfold k, E1; lia).
  rewrite Hk. replace (E1 + 1074) with (E1 - e + (e + 1074)) by lia.
  f_equal. rewrite (Z.pow_add_r 2 (E1 - e) (e + 1074)) by lia.
  apply rne_scale; apply Z.pow_pos_nonneg; lia.
Qed.

(** [of_scaled] on a rounded mantissa at an exponent of binary32. *)
Lemma of_scaled_rounded (m1 E1 : Z) :
  0 < m1 ≤ 2 ^ 24 → -149 ≤ E1 → (-149 < E1 → 2 ^ 23 ≤ m1) →
  F32.of_scaled (m1 * 2 ^ (E1 + 1074))
  = if (if m1 =? 2 ^ 24 then E1 + 1 <=? 104 else E1 <=? 104)
    then S754_finite false (Z.to_pos (m1 * 2 ^ (52 - Z.log2 m1)))
           (Z.log2 m1 + E1 - 52)
    else S754_infinity false.
Proof.
  intros [Hlo Hhi] HE Hn.
  pose proof (Z.log2_spec m1 Hlo) as [Llo Lhi].
  pose proof (Z.log2_nonneg m1) as Ln.
  assert (Hl : Z.log2 m1 ≤ 24).
  { rewrite <- (Z.log2_pow2 24) by lia. apply Z.log2_le_mono; lia. }
  assert (HP : 0 < 2 ^ (E1 + 1074)) by (apply Z.pow_pos_nonneg; lia).
  unfold F32.of_scaled.
  destruct (Z.eqb_spec (m1 * 2 ^ (E1 + 1074)) 0) as [H0|_]; [nia|].
  assert (Hd : Z.log2 (m1 * 2 ^ (E1 + 1074)) = Z.log2 m1 + E1 + 1074)
    by (rewrite Z.log2_mul_pow2; lia).
  rewrite Hd.
  assert (Hover : (2 ^ 1202 <=? m1 * 2 ^ (E1 + 1074))
                  = negb (if m1 =? 2 ^ 24 then E1 + 1 <=? 104 else E1 <=? 104)).
  { destruct (Z.eqb_spec m1 (2 ^ 24)) as [H24|H24].
    - rewrite H24, <- Z.pow_add_r by lia.
      destruct (Z.leb_spec (E1 + 1) 104); simpl.
      + apply Z.leb_gt. apply Z.pow_lt_mono_r; lia.
      + apply Z.leb_le. apply Z.pow_le_mono_r; lia.
    - destruct (Z.leb_spec E1 104); simpl.
      + apply Z.leb_gt.
        apply Z.lt_le_trans with (2 ^ 24 * 2 ^ (E1 + 1074)); [nia|].
        rewrite <- Z.pow_add_r by lia. apply Z.pow_le_mono_r; lia.
      + apply Z.leb_le.
        apply Z.le_trans with (2 ^ 23 * 2 ^ (E1 + 1074)); [|specialize (Hn ltac:(lia)); nia].
        rewrite <- Z.pow_add_r by lia. apply Z.pow_le_mono_r; lia. }
  rewrite Hover.
  destruct (if m1 =? 2 ^ 24 then E1 + 1 <=? 104 else E1 <=? 104); simpl; [|reflexivity].
  destruct (Z.leb_spec 52 (Z.log2 m1 + E1 + 1074)); [|lia].
  replace (Z.log2 m1 + E1 + 1074 - 52 - 1074) with (Z.log2 m1 + E1 - 52) by lia.
  replace (m1 * 2 ^ (E1 + 1074) / 2 ^ (Z.log2 m1 + E1 + 1074 - 52))
    with (m1 * 2 ^ (52 - Z.log2 m1)); [reflexivity|].
  replace (E1 + 1074) with ((52 - Z.log2 m1) + (Z.log2 m1 + E1 + 1074 - 52)) at 1 by lia.
  rewrite Z.pow_add_r, Z.mul_assoc by lia.
  symmetry. apply Z.div_mul. apply Z.pow_nonzero; lia.
Qed.


(** On every binary64 number [F32.of_python] is the rounding to binary32 of
    the Standard Library, read back as a binary64 number. *)
Theorem of_python_is_rounding (x : float) :
  valid_binary F64.prec F64.emax x = true → F32.of_python x = F32.of_python_ref x.
Proof.
  destruct x as [s|s| |s m e]; try reflexivity. simpl valid_binary. intros Hb.
  destruct (round_scaled_valid m e Hb) as [HE HR].
  destruct (bounded64 m e Hb) as (He & HD & Hn).
  pose proof (binary_round_aux32 s m e) as Haux.
  pose proof (rne_mantissa_bounds m) as Hbounds.
  set (E1 := Z.max (Z.log2 (Z.pos m) + 1 + e - 24) (-149)) in *.
  specialize (Haux HE). specialize (Hbounds (E1 - e)).
  set (m1 := F32.rne (2 ^ (E1 - e)) (Z.pos m)) in *.
  destruct Hbounds as [[Hlo Hhi] H23]; [lia | unfold E1; lia |].
  assert (HE149 : -149 ≤ E1) by (unfold E1; lia).
  assert (H23' : -149 < E1 → 2 ^ 23 ≤ m1).
  { intros HE'. apply H23. unfold E1 in *. lia. }
  unfold F32.of_python, F32.of_python_ref. rewrite HR.
  assert (Hbr : binary_round F32.prec F32.emax s m e
                = binary_round_aux F32.prec F32.emax s (Z.pos m) e loc_Exact).
  { unfold binary_round, shl_align. rewrite digits2_pos_log2, fexp32. fold E1.
    destruct (E1 - e) eqn:Hs; try lia; reflexivity. }
  rewrite Hbr, Haux. clear Hbr Haux HR.
  destruct (Z.eqb_spec m1 0) as [H0|H0].
  { rewrite H0, Z.mul_0_l. now destruct s. }
  rewrite of_scaled_rounded by (try assumption; lia).
  destruct (Z.eqb_spec m1 (2 ^ 24)) as [H24|H24].
  - destruct (Z.leb_spec (E1 + 1) 104); [|now destruct s].
    unfold F32.to_python. rewrite H24. rewrite binary_round64_exact.
    + rewrite Z.log2_pow2 by lia.
      replace (Z.log2 (Z.pos (Z.to_pos (2 ^ 23))) + 1) with 24 by reflexivity.
      replace (24 + (E1 + 1) - 53) with (24 + E1 - 52) by lia.
      now destruct s.
    + replace (Z.log2 (Z.pos (Z.to_pos (2 ^ 23))) + 1) with 24 by reflexivity. lia.
    + replace (Z.log2 (Z.pos (Z.to_pos (2 ^ 23))) + 1) with 24 by reflexivity. lia.
  - destruct (Z.leb_spec E1 104); [|now destruct s].
    pose proof (Z.log2_nonneg m1) as Ln.
    assert (Hl : Z.log2 m1 < 24) by (apply Z.log2_lt_pow2; lia).
    unfold F32.to_python.
    rewrite binary_round64_exact; rewrite Z2Pos.id by lia; try lia.
    replace (53 - (Z.log2 m1 + 1)) with (52 - Z.log2 m1) by lia.
    replace (Z.log2 m1 + 1 + E1 - 53) with (Z.log2 m1 + E1 - 52) by lia.
    now destruct s.
Qed.

End Float32Rounding.

(** The conversion leaves [0.0], [1.0] and NaN as they are. *)
Lemma of_python_zero : F32.of_python F64.zero = F64.zero.
Proof. reflexivity. Qed.

Lemma of_python_one : F32.of_python F64.one = F64.one.
Proof. vm_compute. reflexivity. Qed.

Lemma of_python_nan (x : float) :
  F64.is_nan x = true → F64.is_nan (F32.of_python x) = true.
Proof. destruct x; try discriminate. reflexivity. Qed.

(** The samples, computed: on each the conversion is the rounding to
    nearest, ties to even, of the Standard Library at 24 bits. *)
Example of_python_on_samples :
  map F32.of_python Sample.python_floats
  = map F32.of_python_ref Sample.python_floats.
Proof. vm_compute. reflexivity. Qed.

(** [np.float32(0.7)] is 0.699999988079071, and [np.float32(0.5) * 1.2] is
    0.6000000238418579. *)
Example of_python_c0_7 : F32.of_python F64.c0_7 = Demo.float32_0_7.
Proof. vm_compute. reflexivity. Qed.

Example np_mul_half_c1_2 :
  np_mul Float32 Demo.half F64.c1_2 = Demo.float32_0_6 ∧
  np_mul Float64 Demo.half F64.c1_2 = F64.c0_6.
Proof. split; vm_compute; reflexivity. Qed.

(** What numpy makes of the Python float keeps the order, for either
    dtype. *)
Lemma np_weak_mono (d : Dtype) (x y : float) :
  F64.le x y = true → F64.le (np_weak d x) (np_weak d y) = true.
Proof. destruct d; [apply of_python_mono | easy]. Qed.

(** Two numbers each at most the other compare equal. *)
Lemma le_le_eqb (x y : float) :
  F64.le x y = true → F64.le y x = true → SFeqb x y = true.
Proof.
  unfold F64.le, SFleb, SFeqb. rewrite (SFcompare_swap x y).
  destruct (SFcompare x y) as [[]|]; simpl; congruence.
Qed.

(** The product of a number that is not negative with [1.2] is not
    negative, in the arithmetic of either dtype. *)
Lemma mul_c1_2_nonneg (d : Dtype) (s : float) :
  F64.le F64.zero s = true → F64.le F64.zero (np_mul d s F64.c1_2) = true.
Proof.
  intros Hs.
  destruct s as [[]|sx| |sx mx ex]; try discriminate;
    [destruct d; reflexivity.. | |];
    (destruct sx; [discriminate|]);
    apply le_zero_nonneg_shape; destruct d; unfold np_mul;
    rewrite ?of_python_c1_2;
    try apply to_python_nonneg; now apply SFmul_finite_nonneg.
Qed.

Lemma le_refl_number (x : float) : F64.is_nan x = false → F64.le x x = true.
Proof.
  intros Hx. apply not_lt_le; auto using lt_irrefl.
Qed.

(** The confidence of a decision on a similarity of the unit interval lies
    in the unit interval. *)
Lemma confidence_unit_interval (d : Dtype) (s t : float) :
  F64.le F64.zero s = true →
  F64.le F64.zero (confidence (decide_match d s t)) = true ∧
  F64.le (confidence (decide_match d s t)) F64.one = true.
Proof.
  intros Hs. simpl. rewrite py_min_unfold.
  pose proof (mul_c1_2_nonneg d s Hs) as Hpos.
  destruct (F64.lt F64.one (np_mul d s F64.c1_2)) eqn:Hlt.
  - split; reflexivity.
  - split; [exact Hpos|].
    apply not_lt_le; [reflexivity | now apply (le_not_nan_r F64.zero) | exact Hlt].
Qed.

(** A similarity below [1.0] is below every threshold above [1.0], also
    after the threshold is rounded to the similarity's dtype. *)
Lemma above_one_no_match `{Backend} (s t : float) :
  F64.le s F64.one = true → F64.lt F64.one t = true →
  np_ge (similarity_dtype s) s t = false.
Proof.
  intros Hhi Ht. unfold np_ge, F64.ge.
  change (F64.le (np_weak (similarity_dtype s) t) s = false).
  destruct (F64.le (np_weak (similarity_dtype s) t) s) eqn:Hle; [|reflexivity].
  exfalso. revert Hle. unfold similarity_dtype.
  destruct (SFeqb s F64.one) eqn:Hone.
  - rewrite orb_true_r. simpl. intros Hle.
    pose proof (le_trans _ _ _ Hle Hhi) as H1.
    now rewrite (lt_not_le _ _ Ht) in H1.
  - rewrite orb_false_r.
    destruct (SFeqb s F64.zero) eqn:Hzero; [|destruct scalar_dtype]; simpl; intros Hle.
    + pose proof (le_trans _ _ _ Hle Hhi) as H1.
      now rewrite (lt_not_le _ _ Ht) in H1.
    + pose proof (of_python_mono _ _ (lt_le _ _ Ht)) as H1.
      rewrite of_python_one in H1.
      pose proof (le_trans _ _ _ H1 Hle) as H2.
      now rewrite (le_le_eqb _ _ Hhi H2) in Hone.
    + pose proof (le_trans _ _ _ Hle Hhi) as H1.
      now rewrite (lt_not_le _ _ Ht) in H1.
Qed.

Section Comparison.
Context `{Backend}.

(** X16: a comparison for a user that [user_embeddings] does not know is
    answered with "register first" whatever the image and the threshold are:
    the image is not even decoded. *)
Theorem compare_faces_unknown_user (uid img : string) (thr : option float)
    (st : State) :
  user_embeddings st !! uid = None →
  compare_faces uid img thr st = Failure MsgUserMissingRegister.
Proof. intros Hnone. unfold compare_faces. now rewrite Hnone. Qed.

(** X17: in every successful comparison the similarity and the confidence
    lie between [0.0] and [1.0], and the threshold reported is the one of
    the request. *)
Theorem compare_faces_success_bounds (uid img : string) (thr : option float)
    (st : State) (m : Message) (d : CompareData) :
  compare_faces uid img thr st = Success m d →
  F64.le F64.zero (similarity d) = true ∧ F64.le (similarity d) F64.one = true ∧
  F64.le F64.zero (confidence d) = true ∧ F64.le (confidence d) F64.one = true ∧
  thr = Some (threshold d).
Proof.
  intros Hc.
  destruct (compare_faces_success uid img thr st m d Hc)
    as (emb & stored & t & _ & -> & -> & _).
  pose proof (cosine_similarity_lower emb stored) as Hlo.
  pose proof (cosine_similarity_upper emb stored) as Hhi.
  destruct (confidence_unit_interval
              (similarity_dtype (cosine_similarity emb stored))
              (cosine_similarity emb stored) t Hlo).
  repeat split; assumption.
Qed.

(** X18: lowering the threshold never loses a match: when a comparison at a
    threshold is a match, the same comparison at any threshold that is at
    most the first is a match too, with the same similarity and the same
    confidence. *)
Theorem compare_faces_threshold_monotone (uid img : string) (t t' : float)
    (st : State) (m : Message) (d : CompareData) :
  compare_faces uid img (Some t) st = Success m d →
  isMatch d = true →
  F64.le t' t = true →
  compare_faces uid img (Some t') st
    = Success m {| similarity := similarity d; isMatch := true;
                   confidence := confidence d; threshold := t' |}.
Proof.
  unfold compare_faces.
  destruct (user_embeddings st !! uid) as [stored|]; [|discriminate].
  destruct (base64_to_image img) as [im|e]; [|discriminate].
  destruct (detect_and_extract_face im) as [[face_img|] [emb|]]; try discriminate.
  intros [= <- <-]. simpl. intros Hmatch Hle.
  unfold decide_match. do 2 f_equal.
  unfold np_ge, F64.ge in *.
  apply le_trans with (np_weak (similarity_dtype (cosine_similarity emb stored)) t);
    [now apply np_weak_mono | exact Hmatch].
Qed.

(** X19: in a successful comparison, a threshold that is at most [0.0]
    always gives a match, and a threshold above [1.0] or one that is a NaN
    never does. *)
Theorem compare_faces_threshold_extremes (uid img : string) (t : float)
    (st : State) (m : Message) (d : CompareData) :
  compare_faces uid img (Some t) st = Success m d →
  (F64.le t F64.zero = true → isMatch d = true) ∧
  (F64.lt F64.one t = true → isMatch d = false) ∧
  (F64.is_nan t = true → isMatch d = false).
Proof.
  intros Hc.
  destruct (compare_faces_success uid img (Some t) st m d Hc)
    as (emb & stored & t0 & _ & [= <-] & -> & _).
  pose proof (cosine_similarity_lower emb stored) as Hlo.
  pose proof (cosine_similarity_upper emb stored) as Hhi.
  simpl. repeat split.
  - intros Ht. unfold np_ge, F64.ge.
    apply le_trans with F64.zero; [|exact Hlo].
    pose proof (np_weak_mono (similarity_dtype (cosine_similarity emb stored))
                  _ _ Ht) as H1.
    now destruct (similarity_dtype (cosine_similarity emb stored)).
  - intros Ht. now apply above_one_no_match.
  - intros Ht. unfold np_ge, F64.ge.
    destruct t; try discriminate.
    now destruct (similarity_dtype (cosine_similarity emb stored)).
Qed.

(** X20: a comparison whose threshold is null never succeeds. *)
Theorem compare_faces_null_threshold (uid img : string) (st : State) :
  success (compare_faces uid img None st) = false.
Proof.
  unfold compare_faces.
  destruct (user_embeddings st !! uid) as [stored|]; [|reflexivity].
  destruct (base64_to_image img) as [im|e]; [|reflexivity].
  destruct (detect_and_extract_face im) as [[face_img|] [emb|]]; reflexivity.
Qed.

End Comparison.

Lemma compare_faces_unknown_user_witness :
  @compare_faces Demo.backend "bob" "no image at all" None Demo.alice_state
    = Failure MsgUserMissingRegister.
Proof.
  apply (@compare_faces_unknown_user Demo.backend). vm_compute. reflexivity.
Defined.

Lemma compare_faces_success_bounds_witness :
  F64.le F64.zero F64.one = true ∧ F64.le F64.one F64.one = true ∧
  F64.le F64.zero F64.one = true ∧ F64.le F64.one F64.one = true ∧
  Some F64.c0_6 = Some F64.c0_6.
Proof.
  apply (@compare_faces_success_bounds Demo.backend "alice" "portrait"
           (Some F64.c0_6) Demo.alice_state MsgCompared
           {| similarity := F64.one; isMatch := true; confidence := F64.one;
              threshold := F64.c0_6 |}).
  vm_compute. reflexivity.
Defined.

Lemma compare_faces_threshold_monotone_witness :
  @compare_faces Demo.backend "alice" "portrait" (Some Demo.half) Demo.alice_state
    = Success MsgCompared
        {| similarity := F64.one; isMatch := true; confidence := F64.one;
           threshold := Demo.half |}.
Proof.
  apply (@compare_faces_threshold_monotone Demo.backend "alice" "portrait"
           F64.c0_6 Demo.half Demo.alice_state MsgCompared
           {| similarity := F64.one; isMatch := true; confidence := F64.one;
              threshold := F64.c0_6 |}); vm_compute; reflexivity.
Defined.

Lemma compare_faces_threshold_extremes_witness :
  (F64.le F64.zero F64.zero = true → true = true) ∧
  (F64.lt F64.one F64.zero = true → true = false) ∧
  (F64.is_nan F64.zero = true → true = false).
Proof.
  apply (@compare_faces_threshold_extremes Demo.backend "alice" "portrait"
           F64.zero Demo.alice_state MsgCompared
           {| similarity := F64.one; isMatch := true; confidence := F64.one;
              threshold := F64.zero |}).
  vm_compute. reflexivity.
Defined.

(** A comparison whose similarity is the scalar 0.5, at the threshold 0.5:
    with [float32] embeddings under numpy 2 the confidence is the [float32]
    product 0.6000000238418579, with [float64] arithmetic it is 0.6; the
    similarity and the match are the same. *)
Example compare_faces_float32_run :
  @compare_faces (Sample.quad_backend Float32) "bob" "quad" (Some Demo.half)
    (Sample.bob_state Float32)
  = Success MsgCompared
      {| similarity := Demo.half; isMatch := true;
         confidence := Demo.float32_0_6; threshold := Demo.half |}.
Proof. vm_compute. reflexivity. Qed.

Example compare_faces_float64_run :
  @compare_faces (Sample.quad_backend Float64) "bob" "quad" (Some Demo.half)
    (Sample.bob_state Float64)
  = Success MsgCompared
      {| similarity := Demo.half; isMatch := true;
         confidence := F64.c0_6; threshold := Demo.half |}.
Proof. vm_compute. reflexivity. Qed.

(* ===================================================================== *)
(** ** Listing, health check and restart *)
(* ===================================================================== *)

Section Listing.
Context `{Backend}.

(** X21: [get_all_users] always succeeds; it lists every user of
    [user_faces] exactly once, with the time and the shape stored for it,
    and the count it reports is the number of users listed. *)
Theorem get_all_users_complete (st : State) :
  ∃ users,
    get_all_users st = Success MsgAllUsers (users, size (user_faces st)) ∧
    length users = size (user_faces st) ∧
    NoDup (map ud_userId users) ∧
    (∀ uid, uid ∈ map ud_userId users ↔ is_Some (user_faces st !! uid)) ∧
    (∀ u, u ∈ users →
       ∃ info, user_faces st !! ud_userId u = Some info ∧
               ud_createdAt u = created_at info ∧
               ud_imageSize u = image_size info).
Proof.
  unfold get_all_users.
  set (f := λ kv : string * FaceInfo,
              {| ud_userId := kv.1; ud_createdAt := created_at kv.2;
                 ud_imageSize := image_size kv.2 |}).
  exists (map f (map_to_list (user_faces st))).
  assert (Hids : map ud_userId (map f (map_to_list (user_faces st)))
                 = (map_to_list (user_faces st)).*1).
  { rewrite map_map. reflexivity. }
  rewrite length_map, length_map_to_list, Hids. repeat split.
  - apply NoDup_fst_map_to_list.
  - intros ((uid' & info) & -> & Hin%elem_of_map_to_list)%list_elem_of_fmap. eauto.
  - intros [info Hin]. apply list_elem_of_fmap. exists (uid, info).
    split; [reflexivity | now apply elem_of_map_to_list].
  - intros u ((uid & info) & -> & Hin%elem_of_map_to_list)%list_elem_of_fmap.
    exists info. auto.
Qed.

(** X22: when the two dictionaries hold the same user ids, the user count of
    [health_check] is the total count of [get_all_users]. *)
Theorem health_check_count (w : World) (st : State) :
  same_keys st →
  ∃ users,
    get_all_users st = Success MsgAllUsers (users, hi_userCount (health_check w st)).
Proof.
  intros Hk. unfold get_all_users, health_check. simpl. eexists.
  rewrite length_map, length_map_to_list.
  now rewrite <- (size_dom (user_embeddings st)), Hk, size_dom.
Qed.

(** X23: when the two dictionaries hold the same user ids, [get_user_info]
    answers for a user exactly when a comparison does not send the user to
    register first. *)
Theorem get_user_info_iff_comparable (uid img : string) (thr : option float)
    (st : State) :
  same_keys st →
  success (get_user_info uid st) = true ↔
  compare_faces uid img thr st ≠ Failure MsgUserMissingRegister.
Proof.
  intros Hk.
  assert (Hsame : is_Some (user_faces st !! uid) ↔ is_Some (user_embeddings st !! uid)).
  { rewrite <- !elem_of_dom. unfold same_keys in Hk. now rewrite Hk. }
  unfold get_user_info, compare_faces.
  destruct (user_faces st !! uid) as [info|] eqn:Hf;
    destruct (user_embeddings st !! uid) as [stored|] eqn:He.
  - split; [|reflexivity]. intros _.
    destruct (base64_to_image img) as [im|e]; [|discriminate].
    destruct (detect_and_extract_face im) as [[face_img|] [emb|]]; try discriminate.
    destruct thr; discriminate.
  - destruct (proj1 Hsame) as [? ?]; [eauto | discriminate].
  - destruct (proj2 Hsame) as [? ?]; [eauto | discriminate].
  - split; [discriminate | congruence].
Qed.

Lemma user_data_pkl_load (st : State) :
  user_data_pkl (load_user_data st) = user_data_pkl st.
Proof. unfold load_user_data. destruct (user_data_pkl st) eqn:Hd; simpl; congruence. Qed.

Lemma restart_written (w : World) (st : State) :
  write w = WriteOk → recoverable (save_user_data w st).
Proof. unfold recoverable, restart, save_user_data. intros ->. split; reflexivity. Qed.

Lemma init_recoverable (disk : File) : recoverable (init disk).
Proof.
  unfold recoverable, restart, init. rewrite user_data_pkl_load. simpl. auto.
Qed.

(** A call whose write succeeds keeps a restart lossless. *)
Lemma exec_recoverable (w : World) (op : Op) (st : State) :
  same_keys st → recoverable st → write w = WriteOk → recoverable (exec w op st).
Proof.
  intros Hk Hr Hw. destruct op as [uid img|uid img thr|uid|uid| |]; simpl; auto.
  - destruct (register_face_cases w uid img st) as [[_ ->]|Hok]; [exact Hr|].
    destruct Hok as (? & ? & ? & _ & _ & _ & ->). simpl.
    now apply restart_written.
  - unfold delete_user.
    destruct (decide (is_Some (user_embeddings st !! uid))) as [He|He]; [|exact Hr].
    rewrite decide_True.
    + simpl. now apply restart_written.
    + apply elem_of_dom. unfold same_keys in Hk. rewrite <- Hk. now apply elem_of_dom.
  - unfold load_user_data.
    destruct (user_data_pkl st) as [| |data] eqn:Hd; try exact Hr.
    unfold recoverable, restart, init, load_user_data. simpl. auto.
Qed.

Lemma run_recoverable (calls : list (World * Op)) (st : State) :
  same_keys st → snapshot_same_keys (user_data_pkl st) → recoverable st →
  Forall (λ c, write c.1 = WriteOk) calls →
  recoverable (run calls st).
Proof.
  revert st. induction calls as [|[w op] calls IH]; intros st Hk Hs Hr Hall; simpl.
  - exact Hr.
  - inversion Hall as [|? ? Hw Hrest]; subst. simpl in Hw.
    destruct (exec_invariant w op st Hk Hs) as [Hk' Hs'].
    apply IH; auto using exec_recoverable.
Qed.

(** X24: an instance started on a snapshot that is absent, not loadable or
    has the same user ids in its two dictionaries, and used through any
    history of calls whose writes all succeed, can be restarted at the end
    of that history without loss: the instance built on the file left
    behind has the same [user_embeddings] and the same [user_faces]. *)
Theorem restart_recovers (disk : File) (calls : list (World * Op)) :
  snapshot_same_keys disk →
  Forall (λ c, write c.1 = WriteOk) calls →
  user_embeddings (restart (run calls (init disk)))
    = user_embeddings (run calls (init disk)) ∧
  user_faces (restart (run calls (init disk)))
    = user_faces (run calls (init disk)).
Proof.
  intros Hs Hall. destruct (init_invariant disk Hs) as [Hk Hs'].
  apply (run_recoverable calls (init disk)); auto using init_recoverable.
Qed.

(** A registration touches no other user's embedding. *)
Lemma register_face_other_user (w : World) (uid img other : string) (st : State) :
  other ≠ uid →
  user_embeddings (register_face w uid img st).2 !! other
    = user_embeddings st !! other.
Proof.
  intros Hne.
  destruct (register_face_cases w uid img st) as [[_ ->]|Hok]; [reflexivity|].
  destruct Hok as (? & ? & ? & _ & _ & _ & ->). simpl.
  rewrite (proj1 (save_user_data_maps _ _)). simpl. now apply lookup_insert_ne.
Qed.

(** X25: the registration endpoint treats an empty user id like a missing
    one, registering under the generated id, and so never stores a user
    under the empty id. *)
Theorem face_init_never_empty_id (w : World) (stamp img : string)
    (userId : option string) (st : State) :
  user_embeddings st !! "" = None →
  face_init (Some st) w stamp {| fi_imageData := img; fi_userId := Some "" |}
    = face_init (Some st) w stamp {| fi_imageData := img; fi_userId := None |} ∧
  ∀ st', (face_init (Some st) w stamp
            {| fi_imageData := img; fi_userId := userId |}).2 = Some st' →
         user_embeddings st' !! "" = None.
Proof.
  intros Hnone. split; [reflexivity|].
  intros st'. unfold face_init. simpl. intros [= <-].
  rewrite register_face_other_user; [exact Hnone|].
  destruct userId as [[|a s]|]; discriminate.
Qed.

(** The positions of the successes and of the failures are the positions of
    the outcomes. *)
Lemma outcomes_positions (os : list (nat * Result CompareData)) :
  map br_index (omap outcome_result os) ++ map be_index (omap outcome_error os)
    ≡ₚ os.*1.
Proof.
  induction os as [|[i [m d|m]] os IH]; [reflexivity|..]; unfold omap in *; simpl.
  - now constructor.
  - rewrite <- Permutation_middle. now constructor.
Qed.

Lemma enumerate_positions {A B : Type} (g : A → B) (k : nat) (l : list A) :
  (map (λ p, (p.1, g p.2)) (enumerate_from k l)).*1 = seq k (length l).
Proof.
  revert k. induction l as [|x l IH]; intros k; simpl; [reflexivity|].
  f_equal. apply IH.
Qed.

(** X28: the batch endpoint accounts for every payload exactly once: the
    positions in [results] and the positions in [errors], together, are the
    positions [0, 1, ..., total - 1], and [total] is the number of
    payloads. *)
Theorem face_compare_batch_accounts (st : State) (request : FaceCompareBatchRequest) :
  ∃ d,
    face_compare_batch (Some st) request = Response (Success MsgBatchDone d) ∧
    total d = length (imageDataList request) ∧
    map br_index (results d) ++ map be_index (errors d) ≡ₚ seq 0 (total d).
Proof.
  unfold face_compare_batch. rewrite batch_loop_outcomes. simpl.
  eexists. split; [reflexivity|]. simpl. split; [reflexivity|].
  rewrite outcomes_positions.
  now rewrite (enumerate_positions
    (λ img, compare_faces (userId request) img (req_threshold request) st)).
Qed.

End Listing.

Lemma health_check_count_witness :
  ∃ users,
    @get_all_users Demo.backend Demo.alice_state
      = Success MsgAllUsers
          (users, hi_userCount (@health_check Demo.backend Demo.world Demo.alice_state)).
Proof.
  apply (@health_check_count Demo.backend Demo.world Demo.alice_state).
  vm_compute. reflexivity.
Defined.

Lemma get_user_info_iff_comparable_witness :
  success (@get_user_info Demo.backend "alice" Demo.alice_state) = true ↔
  @compare_faces Demo.backend "alice" "landscape" None Demo.alice_state
    ≠ Failure MsgUserMissingRegister.
Proof.
  apply (@get_user_info_iff_comparable Demo.backend "alice" "landscape" None
           Demo.alice_state).
  vm_compute. reflexivity.
Defined.

Lemma restart_recovers_witness :
  user_embeddings
    (@restart Demo.backend
       (@run Demo.backend
          [(Demo.world, OpRegister "alice" "portrait"); (Demo.world, OpDelete "bob")]
          (@init Demo.backend (@Missing Demo.backend))))
    = user_embeddings Demo.alice_state.
Proof.
  apply (@restart_recovers Demo.backend (@Missing Demo.backend)
           [(Demo.world, OpRegister "alice" "portrait"); (Demo.world, OpDelete "bob")]).
  - exact I.
  - repeat constructor.
Defined.

Lemma face_init_never_empty_id_witness :
  user_embeddings
    (@register_face Demo.backend Demo.world "user_1700000000.5" "portrait"
       Demo.alice_state).2 !! "" = None.
Proof.
  apply (proj2 (@face_init_never_empty_id Demo.backend Demo.world "1700000000.5"
                  "portrait" (Some "") Demo.alice_state eq_refl)).
  reflexivity.
Defined.

(* ===================================================================== *)
(** ** Failed writes *)
(* ===================================================================== *)

Section FailedWrites.
Context `{Backend}.

(** X29: when [pickle.dump] fails inside a registration or a deletion that
    reports success, the file is left truncated: an instance restarted on it
    comes up with no user at all, whatever was stored before. *)
Theorem dump_failure_loses_snapshot (w : World) (uid img : string) (st : State) :
  write w = DumpFails →
  (success (register_face w uid img st).1 = true →
     user_embeddings (restart (register_face w uid img st).2) = ∅ ∧
     user_faces (restart (register_face w uid img st).2) = ∅) ∧
  (success (delete_user w uid st).1 = true →
     user_embeddings (restart (delete_user w uid st).2) = ∅ ∧
     user_faces (restart (delete_user w uid st).2) = ∅).
Proof.
  intros Hw. split.
  - destruct (register_face_cases w uid img st) as [[Hfail _]|Hok]; [congruence|].
    destruct Hok as (? & ? & ? & _ & _ & _ & ->). intros _. simpl.
    unfold restart, save_user_data. rewrite Hw. simpl. auto.
  - unfold delete_user. repeat case_decide; try discriminate. intros _. simpl.
    unfold restart, save_user_data. rewrite Hw. simpl. auto.
Qed.

(** X30: when the snapshot cannot be opened for writing, no operation
    changes the file: a registration or a deletion still succeeds in memory,
    and an instance restarted afterwards is the one a restart before the
    call would have given. *)
Theorem open_failure_keeps_snapshot (w : World) (op : Op) (st : State) :
  write w = OpenFails →
  user_data_pkl (exec w op st) = user_data_pkl st ∧
  restart (exec w op st) = restart st.
Proof.
  intros Hw.
  assert (Hd : user_data_pkl (exec w op st) = user_data_pkl st).
  { destruct op as [uid img|uid img thr|uid|uid| |]; simpl; auto.
    - destruct (register_face_cases w uid img st) as [[_ ->]|Hok]; [reflexivity|].
      destruct Hok as (? & ? & ? & _ & _ & _ & ->). simpl.
      unfold save_user_data. now rewrite Hw.
    - unfold delete_user. repeat case_decide; simpl; auto.
      unfold save_user_data. now rewrite Hw.
    - apply user_data_pkl_load. }
  split; [exact Hd|]. unfold restart. now rewrite Hd.
Qed.

End FailedWrites.

Lemma dump_failure_loses_snapshot_witness :
  user_embeddings
    (@restart Demo.backend
       (@register_face Demo.backend Sample.failing_world "bob" "portrait"
          Demo.alice_state).2) = ∅.
Proof.
  apply (@dump_failure_loses_snapshot Demo.backend Sample.failing_world
           "bob" "portrait" Demo.alice_state eq_refl).
  vm_compute. reflexivity.
Defined.

Lemma open_failure_keeps_snapshot_witness :
  user_data_pkl
    (@exec Demo.backend {| now := "2024-01-02T00:00:00"; write := OpenFails |}
       (OpDelete "alice") Demo.alice_state)
    = user_data_pkl Demo.alice_state.
Proof.
  apply (@open_failure_keeps_snapshot Demo.backend
           {| now := "2024-01-02T00:00:00"; write := OpenFails |}
           (OpDelete "alice") Demo.alice_state eq_refl).
Defined.

(* ===================================================================== *)
(** ** More on the cosine similarity *)
(* ===================================================================== *)

Lemma mul_comm (x y : float) : F64.mul x y = F64.mul y x.
Proof.
  unfold F64.mul, SFmul.
  destruct x as [sx|sx| |sx mx ex], y as [sy|sy| |sy my ey];
    try reflexivity; rewrite (xorb_comm sx sy); try reflexivity.
  now rewrite Pos.mul_comm, Z.add_comm.
Qed.

Lemma dot_acc_comm (acc : float) (v w : vector) : dot_acc acc v w = dot_acc acc w v.
Proof.
  revert acc w. induction v as [|x v IH]; intros acc [|y w]; simpl; try reflexivity.
  rewrite (mul_comm x y). apply IH.
Qed.

Lemma np_dot_comm (v w : vector) : np_dot v w = np_dot w v.
Proof.
  unfold np_dot. rewrite dot_acc_comm.
  destruct (decide (length v = length w)), (decide (length w = length v));
    congruence.
Qed.

(** X26: the similarity does not depend on the order of its two vectors. *)
Theorem cosine_similarity_comm (vec1 vec2 : vector) :
  cosine_similarity vec1 vec2 = cosine_similarity vec2 vec1.
Proof. unfold cosine_similarity. now rewrite np_dot_comm. Qed.

(** X27: two vectors of different lengths have similarity [0.0]: the
    [ValueError] of [np.dot] is caught and no error reaches the caller. *)
Theorem cosine_similarity_length_mismatch (vec1 vec2 : vector) :
  length vec1 ≠ length vec2 → cosine_similarity vec1 vec2 = F64.zero.
Proof.
  intros Hlen. unfold cosine_similarity, np_dot, np_divide.
  rewrite decide_False; [reflexivity|]. now rewrite !length_map.
Qed.

Lemma cosine_similarity_length_mismatch_witness :
  cosine_similarity [F64.one; F64.zero] [F64.one] = F64.zero.
Proof.
  apply (cosine_similarity_length_mismatch [F64.one; F64.zero] [F64.one]).
  discriminate.
Defined.
